(** * Verification of the translation checker (lib/index.js)

    A shallow embedding of the validation engine of [lib/index.js]:
    the placeholder extractor, the placeholder index builder, the per-file
    validator and the orchestrator [checkTranslations], followed by the
    properties proved about them.

    Conventions of the embedding:
    - a JavaScript string is the list of its UTF-16 code units
      ([jsstring]); the two regular expressions have no [u] flag, so they
      match code unit by code unit;
    - a plain object used as a dictionary is a finite map of its own
      properties ([gmap]) when it is only read by key, and the list of its
      [Object.entries] when it is iterated; a read [o[k]] gives the own
      property [k] when [o] has one and otherwise the member of that name
      that a plain object inherits from [Object.prototype], if any;
    - [throw] and rejected promises are the [Throw] outcome of a small
      error monad that also logs every call made to a collaborator
      (discovery, parser, format compiler). *)

From Stdlib Require Import Ascii String.
From stdpp Require Import gmap list fin_maps.

Local Open Scope N_scope.

(** ** JavaScript strings *)

Abbreviation jsstring := (list N).

(** [str "abc"] is the JavaScript string literal ['abc'] (ASCII only). *)
Definition str (s : string) : jsstring :=
  List.map N_of_ascii (list_ascii_of_string s).

Definition LBRACE : N := 123.
Definition RBRACE : N := 125.

(** [\w] : [A-Za-z0-9_]. *)
Definition isWord (c : N) : bool :=
  ((48 <=? c) && (c <=? 57)) || ((65 <=? c) && (c <=? 90))
  || (c =? 95) || ((97 <=? c) && (c <=? 122)).

(** [\s] : the ECMAScript WhiteSpace and LineTerminator code units. *)
Definition isSpace (c : N) : bool :=
  ((9 <=? c) && (c <=? 13)) || (c =? 32) || (c =? 160) || (c =? 5760)
  || ((8192 <=? c) && (c <=? 8202)) || (c =? 8232) || (c =? 8233)
  || (c =? 8239) || (c =? 8287) || (c =? 12288) || (c =? 65279).

(** The character class of [MUSTACHE_MATCHER = /{{[\s\w.#^/'|]+}}/g]. *)
Definition inMustacheClass (c : N) : bool :=
  isSpace c || isWord c || (c =? 46) || (c =? 35) || (c =? 94)
  || (c =? 47) || (c =? 39) || (c =? 124).

(** The character class of [MUSTACHE_REPLACER_MATCHER = /[{}\s#^/']*/g]. *)
Definition inReplacerClass (c : N) : bool :=
  (c =? LBRACE) || (c =? RBRACE) || isSpace c || (c =? 35) || (c =? 94)
  || (c =? 47) || (c =? 39).

(** ** The regular expressions *)

(** Two copies of the code unit [ch] at the head of [s]. *)
Definition eat2 (ch : N) (s : jsstring) : option jsstring :=
  match s with
  | a :: b :: r => if (a =? ch) && (b =? ch) then Some r else None
  | _ => None
  end.

(** The greedy [[...]+] : the longest prefix inside the class and what
    follows it.  Neither brace is in the class, so backtracking to a shorter
    prefix can never make the closing [}}] match. *)
Fixpoint classRun (s : jsstring) : jsstring * jsstring :=
  match s with
  | c :: r =>
      if inMustacheClass c
      then let '(run, rest) := classRun r in (c :: run, rest)
      else ([], s)
  | [] => ([], [])
  end.

(** One attempt of [MUSTACHE_MATCHER] anchored at the head of [s]: the
    matched span and the rest of the string after it. *)
Definition matchMustacheAt (s : jsstring) : option (jsstring * jsstring) :=
  match eat2 LBRACE s with
  | Some r =>
      let '(body, r') := classRun r in
      match body, eat2 RBRACE r' with
      | _ :: _, Some rest =>
          Some (LBRACE :: LBRACE :: body ++ [RBRACE; RBRACE], rest)
      | _, _ => None
      end
  | None => None
  end.

(** The scan of a global regular expression: leftmost match, resume after
    it, otherwise advance by one code unit.  Every step consumes at least one
    code unit, so [length s] steps are enough (see [matchAllFrom_fuel]). *)
Fixpoint matchAllFrom (fuel : nat) (s : jsstring) : list jsstring :=
  match fuel, s with
  | S fuel', _ :: r =>
      match matchMustacheAt s with
      | Some (m, rest) => m :: matchAllFrom fuel' rest
      | None => matchAllFrom fuel' r
      end
  | _, _ => []
  end.

Definition matchAll (s : jsstring) : list jsstring :=
  matchAllFrom (length s) s.

(** [s.match(MUSTACHE_MATCHER)] : [null] when nothing matches, otherwise the
    array of all matched spans. *)
Definition jsMatch (s : jsstring) : option (list jsstring) :=
  match matchAll s with
  | [] => None
  | ms => Some ms
  end.

(** [s.replace(MUSTACHE_REPLACER_MATCHER, '')]. *)
Definition jsReplace (s : jsstring) : jsstring :=
  List.filter (fun c => negb (inReplacerClass c)) s.

(** [_.uniq] : the first occurrence of every element, in order. *)
Fixpoint uniq (l : list jsstring) : list jsstring :=
  match l with
  | [] => []
  | x :: r => x :: List.filter (fun y => bool_decide (y ≠ x)) (uniq r)
  end.

(** ** Values and translation sets *)

(** Modelled from the spec: the parser ([parseProperties], lib/fs.js) is not
    among the sources; the spec gives a message value as a string or a
    non-string value ("tagged union {StringValue, OtherValue}").  A
    non-string value is one of the scalars a key/value text parser yields
    ([null], [undefined], a boolean, a number); the code only observes its
    truthiness, and it has no [match], [includes] or [every] method.  The
    members a plain object inherits from [Object.prototype] (functions,
    and the prototype itself for [__proto__]) are values of this kind too:
    truthy, not strings, and without these methods. *)
Inductive Value : Type :=
  | VString (s : jsstring)
  | VOther (isTruthy : bool).

#[global] Instance Value_eq_dec : EqDecision Value.
Proof. solve_decision. Defined.

Definition undefined : Value := VOther false.

(** JavaScript truthiness: the empty string is the only falsy string. *)
Definition truthy (v : Value) : bool :=
  match v with
  | VString [] => false
  | VString (_ :: _) => true
  | VOther b => b
  end.

(** [typeof v === 'string'] *)
Definition typeofString (v : Value) : bool :=
  match v with
  | VString _ => true
  | VOther _ => false
  end.

(** A parsed file, as the list of its [Object.entries]: a plain object,
    like the [{}] the code itself creates (lines 55, 56, 165, 167).  The
    key [__proto__] is not an own key of such an object: assigning a
    message to it stores nothing. *)
Abbreviation TranslationSet := (list (jsstring * Value)).

(** The names of the members of [Object.prototype]: what a read of a key
    finds on a plain object that has no own property of that name. *)
Definition objectPrototypeMembers : list jsstring :=
  [ str "constructor"; str "__defineGetter__"; str "__defineSetter__";
    str "hasOwnProperty"; str "__lookupGetter__"; str "__lookupSetter__";
    str "isPrototypeOf"; str "propertyIsEnumerable"; str "toString";
    str "valueOf"; str "__proto__"; str "toLocaleString" ].

Definition inherited (k : jsstring) : bool :=
  bool_decide (k ∈ objectPrototypeMembers).

(** What a read finds for a key that is no own property. *)
Definition inheritedValue (k : jsstring) : Value :=
  if inherited k then VOther true else undefined.

(** [o[k]] on a translation set. *)
Fixpoint getProp (o : TranslationSet) (k : jsstring) : Value :=
  match o with
  | [] => inheritedValue k
  | (k', v) :: r => if decide (k' = k) then v else getProp r k
  end.

(** ** Findings and exceptions *)

Inductive ErrorKind : Type :=
  | EmptyMessage          (* 'empty-message' *)
  | MissedPlaceholder     (* 'missed-placeholder' *)
  | WrongPlaceholder      (* 'wrong-placeholder' *)
  | WrongMessageformat.   (* 'wrong-messageformat' *)

#[global] Instance ErrorKind_eq_dec : EqDecision ErrorKind.
Proof. solve_decision. Defined.

(** The error thrown by [mf.compile]; the code reads its [message]. *)
Record SyntaxError : Type := { errMessage : jsstring }.

#[global] Instance SyntaxError_eq_dec : EqDecision SyntaxError.
Proof. solve_decision. Defined.

(** One element of [errors].  [cause] is the documented optional field
    (line 44); [None] is a finding object without that property. *)
Record Finding : Type := {
  lang : jsstring;
  error : ErrorKind;
  key : jsstring;
  message : jsstring;
  cause : option SyntaxError
}.

#[global] Instance Finding_eq_dec : EqDecision Finding.
Proof. solve_decision. Defined.

(** What a run can be rejected with.  [TranslationException] is the class
    of './errors', constructed at lines 86-87 from the fixed message, the
    findings and the file names. *)
Inductive Exception : Type :=
  | ReferenceError (name : jsstring)
      (* an identifier that no enclosing scope declares *)
  | TypeError
      (* a call of a method the receiver does not have *)
  | CollaboratorError (e : jsstring)
      (* a rejection of discovery or of the parser, propagated unchanged *)
  | TranslationException
      (msg : jsstring) (errors : list Finding) (fileNames : list jsstring).

Inductive Outcome (A : Type) : Type :=
  | Return (a : A)
  | Throw (e : Exception).
Arguments Return {A} a.
Arguments Throw {A} e.

(** ** Collaborators and their calls *)

Inductive Event : Type :=
  | EvDiscover (dir : jsstring) (languages : option (list jsstring))
      (* translationFileNames(dir, languages) *)
  | EvParse (dir fileName : jsstring)
      (* parseProperties(path.join(dir, fileName)) *)
  | EvNewMessageFormat (lang : jsstring)
      (* new MessageFormat(lang) *)
  | EvCompile (lang msgSrc : jsstring).
      (* mf.compile(msgSrc), mf built for lang *)

#[global] Instance Event_eq_dec : EqDecision Event.
Proof. solve_decision. Defined.

(** A compiler instance: [compile] answers [Some e] when it throws [e]. *)
Record MessageFormat : Type := { compile : jsstring -> option SyntaxError }.

(** The modules the file requires but that are not part of the engine:
    './parse-name', './fs' and the 'messageformat' package.  A rejected
    promise is [inl]; [newMessageFormat] answers [None] when the constructor
    throws.  The parser receives [path.join(dir, fileName)], given here by
    its two components. *)
Class Collaborators : Type := {
  translationFileNames :
    jsstring -> option (list jsstring) -> jsstring + list jsstring;
  parseProperties : jsstring -> jsstring -> jsstring + TranslationSet;
  fileLanguage : jsstring -> jsstring;
  newMessageFormat : jsstring -> option MessageFormat
}.

(** A computation: the collaborator calls made so far, and how it ended. *)
Definition M (A : Type) : Type := list Event * Outcome A.

Definition ret {A} (a : A) : M A := ([], Return a).

Definition throw {A} (e : Exception) : M A := ([], Throw e).

Definition bind {A B} (m : M A) (f : A -> M B) : M B :=
  match m with
  | (t, Return a) => let '(t', r) := f a in (t ++ t', r)
  | (t, Throw e) => (t, Throw e)
  end.

Notation "'let*' x ':=' m 'in' k" := (bind m (fun x => k))
  (at level 10, x pattern, m at level 100, k at level 200, only parsing).

(** An awaited collaborator call. *)
Definition await {A} (ev : Event) (r : jsstring + A) : M A :=
  ([ev], match r with inr a => Return a | inl e => Throw (CollaboratorError e) end).

(** [for (const x of l) { errors.push(...f(x)) }]. *)
Fixpoint pushEach {A B} (f : A -> M (list B)) (l : list A) : M (list B) :=
  match l with
  | [] => ret []
  | x :: r =>
      let* found := f x in
      let* others := pushEach f r in
      ret (found ++ others)
  end.

Definition trace {A} (m : M A) : list Event := m.1.
Definition outcome {A} (m : M A) : Outcome A := m.2.

(** [for (const x of l) { s = f(s, x) }] : a loop that updates one
    variable. *)
Fixpoint forEach {A S} (f : S -> A -> M S) (s : S) (l : list A) : M S :=
  match l with
  | [] => ret s
  | x :: r => let* s' := f s x in forEach f s' r
  end.

(** ** Placeholder extractor (lines 186-191) *)

(** The body of the function, for a string argument. *)
Definition placeholderKeys (message : jsstring) : list jsstring :=
  let placeholders := default [] (jsMatch message) in
  List.map jsReplace placeholders.

(** The function as JavaScript runs it on any value: the body starts with
    [message.match(...)], a method only strings have. *)
Definition extractPlaceholdersKeysFromMsg (message : Value)
    : M (list jsstring) :=
  match message with
  | VString s => ret (placeholderKeys s)
  | VOther _ => throw TypeError
  end.

(** ** Placeholder index builder (lines 165-184) *)

(** What the builder stores under a key: the deduplicated token array
    (line 178) or the value of the secondary set, verbatim (line 180). *)
Inductive IndexEntry : Type :=
  | Tokens (l : list jsstring)
  | Verbatim (v : Value).

#[global] Instance IndexEntry_eq_dec : EqDecision IndexEntry.
Proof. solve_decision. Defined.

(** The own properties of [result]. *)
Abbreviation PlaceholderIndex := (gmap jsstring IndexEntry).

(** [index[k]] on an index, the plain object [result] of line 167: the
    entry stored under [k], or else what [k] names in [Object.prototype]. *)
Definition readIndex (index : PlaceholderIndex) (k : jsstring)
    : option IndexEntry :=
  match index !! k with
  | Some e => Some e
  | None => if inherited k then Some (Verbatim (VOther true)) else None
  end.

(** Lines 169-176: the list [msgPlaceholders] of one entry. *)
Definition combinedPlaceholders (extraPlaceholders : TranslationSet)
    (msgKey : jsstring) (msgSrc : Value) : M (list jsstring) :=
  let* msgPlaceholders :=
    (if typeofString msgSrc
     then extractPlaceholdersKeysFromMsg msgSrc
     else ret []) in
  if typeofString (getProp extraPlaceholders msgKey)
  then
    let* more :=
      extractPlaceholdersKeysFromMsg (getProp extraPlaceholders msgKey) in
    ret (msgPlaceholders ++ more)
  else ret msgPlaceholders.

(** Lines 168-182: the body of the loop, updating [result]. *)
Definition indexStep (extraPlaceholders : TranslationSet)
    (result : PlaceholderIndex) (entry : jsstring * Value)
    : M PlaceholderIndex :=
  let '(msgKey, msgSrc) := entry in
  let* msgPlaceholders :=
    combinedPlaceholders extraPlaceholders msgKey msgSrc in
  match msgPlaceholders with
  | _ :: _ => ret (<[msgKey := Tokens (uniq msgPlaceholders)]> result)
  | [] =>
      if truthy (getProp extraPlaceholders msgKey)
      then ret (<[msgKey := Verbatim (getProp extraPlaceholders msgKey)]>
                  result)
      else ret result
  end.

(** The second parameter defaults to [{}], the empty translation set. *)
Definition extractPlaceholdersFromTranslations
    (translations extraPlaceholders : TranslationSet) : M PlaceholderIndex :=
  forEach (indexStep extraPlaceholders) ∅ translations.

(** *** Closed forms, used to state what the builder computes *)

(** The tokens a value contributes: those of a string, none otherwise. *)
Definition tokensOf (v : Value) : list jsstring :=
  match v with
  | VString s => placeholderKeys s
  | VOther _ => []
  end.

(** What one entry leaves in the index under its key, if anything. *)
Definition entryOf (extraPlaceholders : TranslationSet)
    (msgKey : jsstring) (msgSrc : Value) : option IndexEntry :=
  match tokensOf msgSrc ++ tokensOf (getProp extraPlaceholders msgKey) with
  | [] =>
      if truthy (getProp extraPlaceholders msgKey)
      then Some (Verbatim (getProp extraPlaceholders msgKey))
      else None
  | (_ :: _) as l => Some (Tokens (uniq l))
  end.

Definition indexOnto (extraPlaceholders : TranslationSet)
    (result : PlaceholderIndex) (translations : TranslationSet)
    : PlaceholderIndex :=
  foldl (fun r entry =>
           match entryOf extraPlaceholders entry.1 entry.2 with
           | Some e => <[entry.1 := e]> r
           | None => r
           end) result translations.

(** ** Array and string methods used by the validator *)

Fixpoint isPrefix (p s : jsstring) : bool :=
  match p, s with
  | [], _ => true
  | a :: p', b :: s' => (a =? b) && isPrefix p' s'
  | _ :: _, [] => false
  end.

(** [s.includes(p)] on strings: [p] occurs somewhere in [s]. *)
Fixpoint isInfix (p s : jsstring) : bool :=
  isPrefix p s ||
  match s with
  | [] => false
  | _ :: r => isInfix p r
  end.

(** [templatePlaceholder.includes(el)] : membership in a token array, the
    substring test on a string stored verbatim, and a [TypeError] on a
    value that has no such method. *)
Definition includes (templatePlaceholder : IndexEntry) (el : jsstring)
    : M bool :=
  match templatePlaceholder with
  | Tokens l => ret (bool_decide (el ∈ l))
  | Verbatim (VString s) => ret (isInfix el s)
  | Verbatim (VOther _) => throw TypeError
  end.

(** [arr.every(f)] on an array: stops at the first [false]. *)
Fixpoint everyOf (f : jsstring -> M bool) (arr : list jsstring) : M bool :=
  match arr with
  | [] => ret true
  | el :: r =>
      let* found := f el in
      if found then everyOf f r else ret false
  end.

(** [msgPlaceholders.every(f)] : only arrays have the method. *)
Definition every (msgPlaceholders : IndexEntry) (f : jsstring -> M bool)
    : M bool :=
  match msgPlaceholders with
  | Tokens l => everyOf f l
  | Verbatim _ => throw TypeError
  end.

(** A looked-up index value when it is truthy: an array always is, a value
    stored verbatim when it is itself truthy; [undefined] never is. *)
Definition whenTruthy (e : option IndexEntry) : option IndexEntry :=
  match e with
  | Some (Tokens l) => Some (Tokens l)
  | Some (Verbatim v) => if truthy v then Some (Verbatim v) else None
  | None => None
  end.

(** ** File validator (lines 92-163) *)

Definition emptyMessage (lang msgKey : jsstring) : Finding :=
  {| lang := lang; error := EmptyMessage; key := msgKey;
     message := str "Empty message found for key '" ++ msgKey
                ++ str "' in '" ++ lang ++ str "' translation";
     cause := None |}.

Definition missedPlaceholder (lang msgKey : jsstring) : Finding :=
  {| lang := lang; error := MissedPlaceholder; key := msgKey;
     message := str "Cannot compile '" ++ lang
                ++ str "' translation with key '" ++ msgKey
                ++ str "' has placeholders, "
                ++ str "but base translations does not have placeholders";
     cause := None |}.

Definition wrongPlaceholder (lang msgKey : jsstring) : Finding :=
  {| lang := lang; error := WrongPlaceholder; key := msgKey;
     message := str "Cannot compile '" ++ lang
                ++ str "' translation with key '" ++ msgKey
                ++ str "' has placeholders "
                ++ str "that do not match any in the base translation provided";
     cause := None |}.

(** The object pushed at lines 152-157: four properties, [e] itself is not
    among them. *)
Definition wrongMessageformat (lang msgKey msgSrc : jsstring) (e : SyntaxError)
    : Finding :=
  {| lang := lang; error := WrongMessageformat; key := msgKey;
     message := str "Cannot compile '" ++ lang ++ str "' translation "
                ++ msgKey ++ str " = '" ++ msgSrc ++ str "' : "
                ++ errMessage e;
     cause := None |}.

(** Lines 122-147: the placeholder branch for one key. *)
Definition checkPlaceholdersOf (lang : jsstring)
    (placeholders : PlaceholderIndex)
    (templatePlaceholders : option PlaceholderIndex)
    (msgKey : jsstring) : M (list Finding) :=
  match templatePlaceholders with
  | None => ret []
  | Some template =>
      match whenTruthy (readIndex placeholders msgKey) with
      | None => ret []
      | Some msgPlaceholders =>
          match whenTruthy (readIndex template msgKey) with
          | None => ret [missedPlaceholder lang msgKey]
          | Some templatePlaceholder =>
              let* foundAllPlaceholders :=
                every msgPlaceholders (includes templatePlaceholder) in
              ret (if negb foundAllPlaceholders
                   then [wrongPlaceholder lang msgKey] else [])
          end
      end
  end.

(** Lines 148-159: the format branch for one message. *)
Definition checkFormatOf (lang : jsstring) (mf : option MessageFormat)
    (msgKey msgSrc : jsstring) : M (list Finding) :=
  match mf with
  | Some compiler =>
      ([EvCompile lang msgSrc],
       Return match compile compiler msgSrc with
              | Some e => [wrongMessageformat lang msgKey msgSrc e]
              | None => []
              end)
  | None => ret []
  end.

(** Lines 111-160: the body of the loop over [Object.entries]. *)
Definition checkEntry (lang : jsstring) (mf : option MessageFormat)
    (placeholders : PlaceholderIndex)
    (templatePlaceholders : option PlaceholderIndex)
    (checkEmpties : bool) (entry : jsstring * Value) : M (list Finding) :=
  let '(msgKey, msgSrc) := entry in
  if negb (truthy msgSrc) then
    ret (if checkEmpties then [emptyMessage lang msgKey] else [])
  else
    match msgSrc with
    | VString s =>
        match jsMatch s with
        | Some _ =>
            checkPlaceholdersOf lang placeholders templatePlaceholders msgKey
        | None => checkFormatOf lang mf msgKey s
        end
    | VOther _ => ret []
    end.

Section Engine.
Context `{Collaborators}.

(** Lines 101-108: [mf] stays [null] when the check is off or the
    constructor throws. *)
Definition makeCompiler (lang : jsstring) (checkMessageformat : bool)
    : M (option MessageFormat) :=
  if checkMessageformat
  then ([EvNewMessageFormat lang], Return (newMessageFormat lang))
  else ret None.

Definition checkFileTranslations (translations : TranslationSet)
    (fileName : jsstring) (templatePlaceholders : option PlaceholderIndex)
    (checkMessageformat checkEmpties : bool) : M (list Finding) :=
  let lang := fileLanguage fileName in
  let* mf := makeCompiler lang checkMessageformat in
  let* placeholders := extractPlaceholdersFromTranslations translations [] in
  pushEach (checkEntry lang mf placeholders templatePlaceholders checkEmpties)
    translations.

End Engine.

(** ** Translation set checker (lines 49-90) *)

Definition EN_FILE : jsstring := str "messages-en.properties".
Definition EX_FILE : jsstring := str "messages-ex.properties".

(** The object the body reads as [options]: [languages] may be undefined,
    the three switches are read for their truthiness only. *)
Record Options : Type := {
  languages : option (list jsstring);
  checkPlaceholders : bool;
  checkMessageformat : bool;
  checkEmpties : bool
}.

(** The second argument of a call; [None] is an omitted property, which the
    destructuring pattern of line 51 replaces by [true]. *)
Record CallOptions : Type := {
  argLanguages : option (list jsstring);
  argCheckPlaceholders : option bool;
  argCheckMessageformat : option bool;
  argCheckEmpties : option bool
}.

(** [{}] *)
Definition noCallOptions : CallOptions :=
  {| argLanguages := None; argCheckPlaceholders := None;
     argCheckMessageformat := None; argCheckEmpties := None |}.

(** The identifier [options] is not a parameter of [checkTranslations] (the
    parameter is a destructuring pattern) and the module declares no such
    variable: it resolves in the enclosing scope, where it is bound
    ([Some]) or not ([None], a [ReferenceError]). *)
Definition resolveOptions (outer : option Options) : M Options :=
  match outer with
  | Some options => ret options
  | None => throw (ReferenceError (str "options"))
  end.

Section Checker.
Context `{Collaborators}.

(** Lines 55-66: the base and extra sets and the template index. *)
Definition loadTemplates (options : Options) (dir : jsstring)
    (fileNames : list jsstring)
    : M (TranslationSet * TranslationSet * option PlaceholderIndex) :=
  if checkPlaceholders options then
    let* enTranslations :=
      (if bool_decide (EN_FILE ∈ fileNames)
       then await (EvParse dir EN_FILE) (parseProperties dir EN_FILE)
       else ret []) in
    let* exTranslations :=
      (if bool_decide (EX_FILE ∈ fileNames)
       then await (EvParse dir EX_FILE) (parseProperties dir EX_FILE)
       else ret []) in
    let* templatePlaceholders :=
      extractPlaceholdersFromTranslations enTranslations exTranslations in
    ret (enTranslations, exTranslations, Some templatePlaceholders)
  else ret ([], [], None).

(** Lines 68-83: one iteration of the loop over [fileNames]. *)
Definition validateFile (options : Options) (dir : jsstring)
    (enTranslations exTranslations : TranslationSet)
    (templatePlaceholders : option PlaceholderIndex)
    (fileName : jsstring) : M (list Finding) :=
  let* translations :=
    (if checkPlaceholders options && bool_decide (fileName = EN_FILE)
     then ret enTranslations
     else if checkPlaceholders options && bool_decide (fileName = EX_FILE)
     then ret exTranslations
     else await (EvParse dir fileName) (parseProperties dir fileName)) in
  if bool_decide (fileName ≠ EX_FILE) then
    checkFileTranslations translations fileName templatePlaceholders
      (checkMessageformat options) (checkEmpties options)
  else ret [].

Definition checkTranslations (outer : option Options) (dir : jsstring)
    (arg : option CallOptions) : M (list jsstring) :=
  (* line 51: the three locals the pattern binds; the body never reads them *)
  let arg' := default noCallOptions arg in
  let checkPlaceholders' := default true (argCheckPlaceholders arg') in
  let checkMessageformat' := default true (argCheckMessageformat arg') in
  let checkEmpties' := default true (argCheckEmpties arg') in
  (* line 54 *)
  let* options := resolveOptions outer in
  let* fileNames :=
    await (EvDiscover dir (languages options))
      (translationFileNames dir (languages options)) in
  let* (enTranslations, exTranslations, templatePlaceholders) :=
    loadTemplates options dir fileNames in
  let* errors :=
    pushEach (validateFile options dir enTranslations exTranslations
                templatePlaceholders) fileNames in
  match errors with
  | _ :: _ =>
      throw (TranslationException
               (str "Error trying to compile translations") errors fileNames)
  | [] => ret fileNames
  end.

End Checker.

(** *** Closed forms, used to state what a run computes *)

(** The findings a loop returned (none if it raised). *)
Definition found {A} (m : M (list A)) : list A :=
  match outcome m with
  | Return l => l
  | Throw _ => []
  end.

(** Whether a computation returned. *)
Definition returned {A} (m : M A) : bool :=
  match outcome m with
  | Return _ => true
  | Throw _ => false
  end.

(** How many times [parseProperties(path.join(dir, fileName))] was
    called. *)
Definition parses (dir fileName : jsstring) (t : list Event) : nat :=
  length (filter (fun ev => ev = EvParse dir fileName) t).

Section ClosedForms.
Context `{Collaborators}.
Context (options : Options) (fileNames : list jsstring)
        (content : jsstring -> TranslationSet).

(** The template index of a run whose files parse to [content]. *)
Definition templateOf : option PlaceholderIndex :=
  if checkPlaceholders options
  then Some (indexOnto
               (if bool_decide (EX_FILE ∈ fileNames)
                then content EX_FILE else [])
               ∅
               (if bool_decide (EN_FILE ∈ fileNames)
                then content EN_FILE else []))
  else None.

(** The compiler a file is validated with. *)
Definition compilerFor (fileName : jsstring) (cm : bool)
    : option MessageFormat :=
  if cm then newMessageFormat (fileLanguage fileName) else None.

(** The validation of one file in that run. *)
Definition validation (fileName : jsstring) : M (list Finding) :=
  checkFileTranslations (content fileName) fileName templateOf
    (checkMessageformat options) (checkEmpties options).

(** The files the loop validates, and all their findings in order. *)
Definition validated : list jsstring :=
  filter (fun fileName => fileName ≠ EX_FILE) fileNames.

Definition allFindings : list Finding :=
  concat (List.map (fun fileName => found (validation fileName)) validated).

End ClosedForms.

(** ** A small concrete world

    Stand-ins for the collaborators, used to run the engine on concrete
    directories: an in-memory file system, the language code cut out of
    [messages-XX.properties], and a compiler that knows three languages and
    rejects a message whose braces are unbalanced. *)
Module Demo.

Definition okDir : list (jsstring * TranslationSet) :=
  [ (EN_FILE, [ (str "greeting", VString (str "Hello {{name}}"));
                (str "farewell", VString (str "Bye")) ]);
    (str "messages-es.properties",
              [ (str "greeting", VString (str "Hola {{ name }}"));
                (str "farewell", VString (str "Adios")) ]);
    (EX_FILE, [ (str "greeting", VString (str "{{user}}"));
                (str "draft", VString (str "")) ]) ].

Definition badDir : list (jsstring * TranslationSet) :=
  [ (EN_FILE, [ (str "greeting", VString (str "Hello {{name}}"));
                (str "farewell", VString (str "Bye"));
                (str "plural",
                 VString (str "{count, plural, one{1} other{}")) ]);
    (str "messages-es.properties",
              [ (str "greeting", VString (str "Hola {{nombre}}"));
                (str "farewell", VString (str "Adios {{name}}"));
                (str "count", VString (str "")) ]) ].

Definition noBaseDir : list (jsstring * TranslationSet) :=
  [ (str "messages-es.properties",
              [ (str "farewell", VString (str "Adios {{name}}")) ]) ].

Definition disk : list (jsstring * list (jsstring * TranslationSet)) :=
  [ (str "ok", okDir); (str "bad", badDir); (str "nobase", noBaseDir) ].

Fixpoint assoc {A} (k : jsstring) (l : list (jsstring * A)) : option A :=
  match l with
  | [] => None
  | (k', a) :: r => if decide (k' = k) then Some a else assoc k r
  end.

Definition languageOf (fileName : jsstring) : jsstring :=
  take (length fileName - 20) (drop 9 fileName).

Definition discover (dir : jsstring) (langs : option (list jsstring))
    : jsstring + list jsstring :=
  match assoc dir disk with
  | None => inl (str "ENOENT")
  | Some files =>
      inr (List.filter
             (fun f => match langs with
                       | Some ls => bool_decide (languageOf f ∈ ls)
                       | None => true
                       end)
             (List.map fst files))
  end.

Definition parse (dir fileName : jsstring) : jsstring + TranslationSet :=
  match assoc dir disk with
  | None => inl (str "ENOENT")
  | Some files =>
      match assoc fileName files with
      | Some t => inr t
      | None => inl (str "ENOENT")
      end
  end.

Definition count (c : N) (s : jsstring) : nat :=
  length (List.filter (fun d => d =? c) s).

Definition balanced : MessageFormat :=
  {| compile := fun msgSrc =>
       if bool_decide (count LBRACE msgSrc = count RBRACE msgSrc)
       then None
       else Some {| errMessage := str "unbalanced braces" |} |}.

Definition construct (lang : jsstring) : option MessageFormat :=
  if bool_decide (lang ∈ [str "en"; str "es"; str "ex"])
  then Some balanced else None.

Definition world : Collaborators :=
  {| translationFileNames := discover;
     parseProperties := parse;
     fileLanguage := languageOf;
     newMessageFormat := construct |}.

(** What the files of a directory parse to. *)
Definition contentOf (dir fileName : jsstring) : TranslationSet :=
  match parse dir fileName with
  | inr t => t
  | inl _ => []
  end.

(** An [options] object bound in the enclosing scope, everything on. *)
Definition allOn : Options :=
  {| languages := None; checkPlaceholders := true;
     checkMessageformat := true; checkEmpties := true |}.

End Demo.


(** ** Further notions used in statements *)

(** The messages of a file that reach the format check: the non-empty
    strings without a placeholder span, in the order of the entries. *)
Definition formatChecked (translations : TranslationSet) : list jsstring :=
  flat_map (fun entry : jsstring * Value =>
              match entry.2 with
              | VString s =>
                  if truthy (VString s) && bool_decide (jsMatch s = None)
                  then [s] else []
              | VOther _ => []
              end) translations.

(** Why a finding with language [code] is in the findings of a file:
    the entry it comes from and the branch of the loop body that pushed
    it. *)
Inductive reason (code : jsstring) (mf : option MessageFormat)
    (template : option PlaceholderIndex) (ce : bool)
    (translations : TranslationSet) : Finding -> Prop :=
  | reason_empty msgKey msgSrc :
      (msgKey, msgSrc) ∈ translations -> truthy msgSrc = false ->
      ce = true ->
      reason code mf template ce translations (emptyMessage code msgKey)
  | reason_missed msgKey s index :
      (msgKey, VString s) ∈ translations -> jsMatch s <> None ->
      template = Some index -> whenTruthy (index !! msgKey) = None ->
      reason code mf template ce translations (missedPlaceholder code msgKey)
  | reason_wrong msgKey s index base :
      (msgKey, VString s) ∈ translations -> jsMatch s <> None ->
      template = Some index -> whenTruthy (index !! msgKey) = Some base ->
      reason code mf template ce translations (wrongPlaceholder code msgKey)
  | reason_format msgKey s compiler e :
      (msgKey, VString s) ∈ translations -> s <> [] -> jsMatch s = None ->
      mf = Some compiler -> compile compiler s = Some e ->
      reason code mf template ce translations
        (wrongMessageformat code msgKey s e).

(** A run that got through its files: it returned, or raised the
    aggregate error. *)
Definition completed {A} (o : Outcome A) : Prop :=
  match o with
  | Return _ => True
  | Throw (TranslationException _ _ _) => True
  | Throw _ => False
  end.

(** Whether the loop reuses the set loaded for the file instead of
    parsing it (lines 69-72). *)
Definition reused (options : Options) (f : jsstring) : Prop :=
  checkPlaceholders options = true /\ (f = EN_FILE \/ f = EX_FILE).

(** The events a run on [dir] may log, given the [options] it reads and
    the names discovery returned. *)
Definition expectedEvent `{Collaborators} (options : Options)
    (dir : jsstring) (fileNames : list jsstring) (ev : Event) : Prop :=
  match ev with
  | EvDiscover d langs => d = dir /\ langs = languages options
  | EvParse d f => d = dir /\ f ∈ fileNames
  | EvNewMessageFormat l =>
      checkMessageformat options = true /\
      exists f, f ∈ fileNames /\ f ≠ EX_FILE /\ l = fileLanguage f
  | EvCompile l s =>
      checkMessageformat options = true /\
      exists f, f ∈ fileNames /\ f ≠ EX_FILE /\ l = fileLanguage f /\
                is_Some (newMessageFormat l) /\ jsMatch s = None
  end.

(** An event of the stages that follow discovery. *)
Definition laterEvent `{Collaborators} (options : Options)
    (dir : jsstring) (fileNames : list jsstring) (ev : Event) : Prop :=
  expectedEvent options dir fileNames ev /\
  forall d langs, ev <> EvDiscover d langs.

(** ** A second concrete world

    The same stand-ins over another disk: in [scalars] the extra file
    gives a number for a key whose base message has no placeholder; in
    [broken] one file does not parse. *)
Module Fixture.

Definition scalarsDir : list (jsstring * TranslationSet) :=
  [ (EN_FILE, [ (str "count", VString (str "Count")) ]);
    (str "messages-es.properties",
              [ (str "count", VString (str "{{n}} cosas")) ]);
    (EX_FILE, [ (str "count", VOther true) ]) ].

(** A directory without base file, whose only file has a message with a
    placeholder under a key that names a member of [Object.prototype]. *)
Definition inheritedDir : list (jsstring * TranslationSet) :=
  [ (str "messages-es.properties",
              [ (str "toString", VString (str "Hola {{name}}")) ]) ].

Definition disk : list (jsstring * list (jsstring * TranslationSet)) :=
  [ (str "scalars", scalarsDir); (str "inherited", inheritedDir) ].

Definition discover (dir : jsstring) (langs : option (list jsstring))
    : jsstring + list jsstring :=
  if bool_decide (dir = str "broken")
  then inr [str "messages-es.properties"; str "messages-fr.properties"]
  else match Demo.assoc dir disk with
       | None => inl (str "ENOENT")
       | Some files => inr (List.map fst files)
       end.

Definition parse (dir fileName : jsstring) : jsstring + TranslationSet :=
  if bool_decide (dir = str "broken")
  then if bool_decide (fileName = str "messages-es.properties")
       then inr [ (str "count", VString []) ]
       else inl (str "malformed")
  else match Demo.assoc dir disk with
       | None => inl (str "ENOENT")
       | Some files =>
           match Demo.assoc fileName files with
           | Some t => inr t
           | None => inl (str "ENOENT")
           end
       end.

Definition world : Collaborators :=
  {| translationFileNames := discover;
     parseProperties := parse;
     fileLanguage := Demo.languageOf;
     newMessageFormat := Demo.construct |}.

Definition contentOf (dir fileName : jsstring) : TranslationSet :=
  match parse dir fileName with
  | inr t => t
  | inl _ => []
  end.

End Fixture.

(** ** Tactics for closed facts *)

(** Closed decidable facts (membership, absence of duplicates) are settled
    by evaluation. *)
Ltac by_evaluation := apply (bool_decide_unpack _); vm_compute; exact I.

(** Settles a statement about every member of a concrete list by trying
    each member. *)
Ltac each_member f Hf tac :=
  repeat (apply elem_of_cons in Hf as [->|Hf]; [tac|]);
  by apply elem_of_nil in Hf.

(** * Properties *)

(** ** The error monad *)

Lemma bind_ret {A B} (a : A) (f : A -> M B) : bind (ret a) f = f a.
Proof. unfold bind, ret. by destruct (f a). Qed.

Lemma bind_Return {A B} (m : M A) (f : A -> M B) t b :
  bind m f = (t, Return b) ->
  exists t1 a t2, m = (t1, Return a) /\ f a = (t2, Return b) /\ t = t1 ++ t2.
Proof.
  destruct m as [t1 [a|e]]; simpl; [|discriminate].
  destruct (f a) as [t2 r] eqn:Hf. intros [= <- ->]. by exists t1, a, t2.
Qed.

(** ** The regular expressions *)

Lemma eat2_Some ch s r : eat2 ch s = Some r <-> s = ch :: ch :: r.
Proof.
  unfold eat2. destruct s as [|a [|b s']]; try (split; discriminate).
  destruct (a =? ch) eqn:Ha, (b =? ch) eqn:Hb; simpl;
    rewrite ?N.eqb_eq, ?N.eqb_neq in *; split; intros [=]; subst;
    try done; congruence.
Qed.

Lemma classRun_spec s run rest :
  classRun s = (run, rest) ->
  s = run ++ rest /\ Forall (fun c => inMustacheClass c = true) run.
Proof.
  revert run rest. induction s as [|c s IH]; intros run rest; simpl.
  - intros [= <- <-]. by split.
  - destruct (inMustacheClass c) eqn:Hc.
    + destruct (classRun s) as [run' rest'] eqn:Hr. intros [= <- <-].
      destruct (IH _ _ eq_refl) as [-> Hall]. split; [done|].
      by constructor.
    + intros [= <- <-]. by split.
Qed.

(** The class run stops exactly where the class stops. *)
Lemma classRun_app body rest :
  Forall (fun c => inMustacheClass c = true) body ->
  match rest with [] => True | c :: _ => inMustacheClass c = false end ->
  classRun (body ++ rest) = (body, rest).
Proof.
  intros Hall Hrest. induction Hall as [|c body Hc _ IH]; cbn [app classRun].
  - destruct rest as [|c r]; [done|]. cbn [classRun]. by rewrite Hrest.
  - by rewrite Hc, IH.
Qed.

(** A match is a span [{{body}}] with a non-empty body inside the class,
    found at the head of the string. *)
Lemma matchMustacheAt_Some s m rest :
  matchMustacheAt s = Some (m, rest) ->
  exists body,
    body <> [] /\ Forall (fun c => inMustacheClass c = true) body /\
    m = LBRACE :: LBRACE :: body ++ [RBRACE; RBRACE] /\ s = m ++ rest.
Proof.
  unfold matchMustacheAt. destruct (eat2 LBRACE s) as [r|] eqn:He; [|done].
  apply eat2_Some in He as ->.
  destruct (classRun r) as [body r'] eqn:Hr.
  apply classRun_spec in Hr as [-> Hall].
  destruct body as [|c body]; [done|].
  destruct (eat2 RBRACE r') as [rest'|] eqn:He'; [|done].
  apply eat2_Some in He' as ->. intros [= <- <-].
  exists (c :: body). repeat split; try done.
  simpl. by rewrite <- app_assoc.
Qed.

Lemma matchMustacheAt_length s m rest :
  matchMustacheAt s = Some (m, rest) -> (length rest < length s)%nat.
Proof.
  intros (body & _ & _ & -> & ->)%matchMustacheAt_Some.
  rewrite length_app. simpl. lia.
Qed.

(** The fuel of the scan is enough: any larger amount gives the same
    matches. *)
Lemma matchAllFrom_fuel n m s :
  (length s <= n)%nat -> (length s <= m)%nat ->
  matchAllFrom n s = matchAllFrom m s.
Proof.
  revert m s. induction n as [|n IH]; intros m s Hn Hm.
  - destruct s; simpl in *; [by destruct m | lia].
  - destruct s as [|c s]; [by destruct m|].
    destruct m as [|m]; [simpl in *; lia|].
    simpl in Hn, Hm. cbn [matchAllFrom].
    destruct (matchMustacheAt (c :: s)) as [[sp rest]|] eqn:Hm'.
    + apply matchMustacheAt_length in Hm'. simpl in Hm'.
      f_equal. apply IH; lia.
    + apply IH; lia.
Qed.

Lemma matchAllFrom_shape fuel s m :
  m ∈ matchAllFrom fuel s ->
  exists body,
    body <> [] /\ Forall (fun c => inMustacheClass c = true) body /\
    m = LBRACE :: LBRACE :: body ++ [RBRACE; RBRACE].
Proof.
  revert s. induction fuel as [|fuel IH]; intros s; simpl.
  - by intros ?%elem_of_nil.
  - destruct s as [|c s]; [by intros ?%elem_of_nil|].
    destruct (matchMustacheAt (c :: s)) as [[sp rest]|] eqn:Hm.
    + intros [->|Hin]%elem_of_cons; [|by eapply IH].
      apply matchMustacheAt_Some in Hm as (body & ? & ? & ? & _).
      by exists body.
    + apply IH.
Qed.

(** Without an opening brace nothing matches. *)
Lemma matchAllFrom_no_brace fuel s :
  Forall (fun c => c <> LBRACE) s -> matchAllFrom fuel s = [].
Proof.
  revert s. induction fuel as [|fuel IH]; intros s Hs; [done|].
  destruct s as [|c s]; [done|]. cbn [matchAllFrom].
  inversion Hs as [|? ? Hc Hs']; subst.
  assert (matchMustacheAt (c :: s) = None) as ->.
  { unfold matchMustacheAt.
    destruct (eat2 LBRACE (c :: s)) as [r|] eqn:He; [|done].
    apply eat2_Some in He. congruence. }
  by apply IH.
Qed.

Lemma jsReplace_fixed s :
  Forall (fun c => inReplacerClass c = false) s -> jsReplace s = s.
Proof.
  unfold jsReplace. induction 1 as [|c s Hc _ IH]; simpl; [done|].
  by rewrite Hc, IH.
Qed.

Lemma jsReplace_clean s :
  Forall (fun c => inReplacerClass c = false) (jsReplace s).
Proof.
  unfold jsReplace. induction s as [|c s IH]; simpl; [constructor|].
  destruct (inReplacerClass c) eqn:Hc; simpl; [done|]. by constructor.
Qed.

Lemma jsReplace_span body :
  jsReplace (LBRACE :: LBRACE :: body ++ [RBRACE; RBRACE]) = jsReplace body.
Proof.
  unfold jsReplace. cbn [List.filter]. rewrite List.filter_app.
  change (inReplacerClass LBRACE) with true.
  change (inReplacerClass RBRACE) with true. simpl. by rewrite app_nil_r.
Qed.

Lemma placeholderKeys_matchAll msg :
  placeholderKeys msg = List.map jsReplace (matchAll msg).
Proof. unfold placeholderKeys, jsMatch. by destruct (matchAll msg). Qed.

Lemma placeholderKeys_nil msg : jsMatch msg = None <-> placeholderKeys msg = [].
Proof.
  rewrite placeholderKeys_matchAll. unfold jsMatch.
  by destruct (matchAll msg).
Qed.

(** What an extracted token looks like: the body of a span with the
    replacer class removed. *)
Lemma placeholderKeys_token msg t :
  t ∈ placeholderKeys msg ->
  exists body,
    Forall (fun c => inMustacheClass c = true) body /\ t = jsReplace body.
Proof.
  rewrite placeholderKeys_matchAll, list_elem_of_In. unfold matchAll.
  intros (m & <- & Hm)%in_map_iff.
  apply list_elem_of_In, matchAllFrom_shape in Hm as (body & _ & Hb & ->).
  exists body. split; [done|]. apply jsReplace_span.
Qed.

Lemma replacer_false_not_brace c :
  inReplacerClass c = false -> c <> LBRACE.
Proof. intros Hc ->. discriminate. Qed.

Lemma filter_Forall_keep {A} (P : A -> Prop) f (l : list A) :
  Forall P l -> Forall P (List.filter f l).
Proof.
  induction 1 as [|x l Hx _ IH]; simpl; [constructor|].
  destruct (f x); [by constructor | done].
Qed.

(** ** Reads of a key on a plain object *)

Lemma tokensOf_inheritedValue k : tokensOf (inheritedValue k) = [].
Proof. unfold inheritedValue. by destruct (inherited k). Qed.


Lemma readIndex_own index k e :
  index !! k = Some e -> readIndex index k = Some e.
Proof. unfold readIndex. by intros ->. Qed.

Lemma readIndex_absent index k :
  index !! k = None ->
  readIndex index k
  = if inherited k then Some (Verbatim (VOther true)) else None.
Proof. unfold readIndex. by intros ->. Qed.

Lemma whenTruthy_readIndex_None index k :
  whenTruthy (readIndex index k) = None ->
  whenTruthy (index !! k) = None /\
  (index !! k = None -> inherited k = false).
Proof.
  unfold readIndex. destruct (index !! k) as [e|]; [by split|].
  by destruct (inherited k).
Qed.

(** ** The placeholder extractor *)

(** A non-empty token, wrapped again in double braces, is one span. *)
Lemma matchAll_wrapped t :
  t <> [] -> Forall (fun c => inMustacheClass c = true) t ->
  matchAll (LBRACE :: LBRACE :: t ++ [RBRACE; RBRACE])
  = [LBRACE :: LBRACE :: t ++ [RBRACE; RBRACE]].
Proof.
  intros Hne Hall. unfold matchAll. cbn [length matchAllFrom].
  assert (matchMustacheAt (LBRACE :: LBRACE :: t ++ [RBRACE; RBRACE])
          = Some (LBRACE :: LBRACE :: t ++ [RBRACE; RBRACE], [])) as ->.
  { unfold matchMustacheAt.
    assert (eat2 LBRACE (LBRACE :: LBRACE :: t ++ [RBRACE; RBRACE])
            = Some (t ++ [RBRACE; RBRACE])) as -> by by apply eat2_Some.
    rewrite (classRun_app t [RBRACE; RBRACE]) by done.
    destruct t as [|c t]; [done|].
    by assert (eat2 RBRACE [RBRACE; RBRACE] = Some []) as ->
      by by apply eat2_Some. }
  reflexivity.
Qed.

(** C9, the claim as stated, at the message [{{name}}]: extracting again
    from the extracted token [name] gives nothing, not the token set. *)
Lemma reextraction_differs :
  let tokens := placeholderKeys (str "{{name}}") in
  ~ (forall t, t ∈ tokens <-> t ∈ concat (List.map placeholderKeys tokens)).
Proof.
  intros tokens Hsame. specialize (Hsame (str "name")).
  assert (str "name" ∈ tokens) as Hin by (vm_compute; left).
  apply Hsame in Hin. vm_compute in Hin. by apply elem_of_nil in Hin.
Qed.

(** C9, amended: every extracted token is already normalized (the
    replacement leaves it unchanged) and holds no brace, so the extractor
    finds nothing in the bare token; wrapped again in double braces, a
    non-empty token is extracted as itself. *)
Theorem extracted_token_stable (msg : jsstring) (tokens : list jsstring)
    (t : jsstring) :
  extractPlaceholdersKeysFromMsg (VString msg) = ret tokens ->
  t ∈ tokens ->
  jsReplace t = t /\
  extractPlaceholdersKeysFromMsg (VString t) = ret [] /\
  (t <> [] ->
   extractPlaceholdersKeysFromMsg
     (VString (LBRACE :: LBRACE :: t ++ [RBRACE; RBRACE])) = ret [t]).
Proof.
  intros [= <-] (body & Hbody & ->)%placeholderKeys_token.
  pose proof (jsReplace_clean body) as Hclean.
  assert (jsReplace (jsReplace body) = jsReplace body) as Hfix
    by by apply jsReplace_fixed.
  split; [done|]. split.
  - cbn [extractPlaceholdersKeysFromMsg]. f_equal.
    rewrite placeholderKeys_matchAll. unfold matchAll.
    rewrite matchAllFrom_no_brace; [done|].
    eapply Forall_impl; [exact Hclean|]. apply replacer_false_not_brace.
  - intros Hne. cbn [extractPlaceholdersKeysFromMsg]. f_equal.
    rewrite placeholderKeys_matchAll, matchAll_wrapped; [|done|].
    + cbn [List.map]. by rewrite jsReplace_span, Hfix.
    + by apply filter_Forall_keep.
Qed.

Lemma extracted_token_stable_witness :
  let t := str "name" in
  jsReplace t = t /\
  extractPlaceholdersKeysFromMsg (VString t) = ret [] /\
  (t <> [] ->
   extractPlaceholdersKeysFromMsg
     (VString (LBRACE :: LBRACE :: t ++ [RBRACE; RBRACE])) = ret [t]).
Proof.
  apply (extracted_token_stable (str "Hello {{ name }}") [str "name"]).
  - reflexivity.
  - left.
Defined.

(** ** The index builder never raises *)

Lemma combinedPlaceholders_ret extra msgKey msgSrc :
  combinedPlaceholders extra msgKey msgSrc
  = ret (tokensOf msgSrc ++ tokensOf (getProp extra msgKey)).
Proof.
  unfold combinedPlaceholders.
  destruct msgSrc as [s|b], (getProp extra msgKey) as [e|b']; simpl;
    by rewrite ?app_nil_r.
Qed.

Lemma indexStep_ret extra result msgKey msgSrc :
  indexStep extra result (msgKey, msgSrc)
  = ret match entryOf extra msgKey msgSrc with
        | Some e => <[msgKey := e]> result
        | None => result
        end.
Proof.
  unfold indexStep, entryOf. rewrite combinedPlaceholders_ret, bind_ret.
  destruct (tokensOf msgSrc ++ tokensOf (getProp extra msgKey)); [|done].
  by destruct (truthy (getProp extra msgKey)).
Qed.

Lemma forEach_indexStep extra result translations :
  forEach (indexStep extra) result translations
  = ret (indexOnto extra result translations).
Proof.
  revert result. induction translations as [|[k v] ts IH]; intros result.
  - done.
  - cbn [forEach]. rewrite indexStep_ret, bind_ret, IH. done.
Qed.

Lemma extractPlaceholdersFromTranslations_ret translations extra :
  extractPlaceholdersFromTranslations translations extra
  = ret (indexOnto extra ∅ translations).
Proof. apply forEach_indexStep. Qed.



(** ** What the index holds *)

Lemma indexOnto_cons extra result k v ts :
  indexOnto extra result ((k, v) :: ts)
  = indexOnto extra
      match entryOf extra k v with
      | Some e => <[k := e]> result
      | None => result
      end ts.
Proof. reflexivity. Qed.

Lemma indexOnto_lookup_notin extra result ts k :
  k ∉ ts.*1 -> indexOnto extra result ts !! k = result !! k.
Proof.
  revert result. induction ts as [|[k' v'] ts IH]; intros result Hk; [done|].
  rewrite indexOnto_cons. cbn [fmap list_fmap fst] in Hk.
  apply not_elem_of_cons in Hk as [Hne Hk]. rewrite IH by done.
  destruct (entryOf extra k' v'); [|done]. by rewrite lookup_insert_ne.
Qed.

Lemma indexOnto_lookup extra result ts k v :
  NoDup ts.*1 -> (k, v) ∈ ts ->
  indexOnto extra result ts !! k
  = match entryOf extra k v with
    | Some e => Some e
    | None => result !! k
    end.
Proof.
  revert result. induction ts as [|[k' v'] ts IH]; intros result Hnd Hin.
  - by apply elem_of_nil in Hin.
  - rewrite indexOnto_cons. cbn [fmap list_fmap fst] in Hnd.
    apply NoDup_cons in Hnd as [Hk' Hnd].
    apply elem_of_cons in Hin as [[= -> ->]|Hin].
    + rewrite indexOnto_lookup_notin by done.
      destruct (entryOf extra k' v'); [|done]. by rewrite lookup_insert_eq.
    + assert (k <> k') as Hne.
      { intros ->. apply Hk'. apply list_elem_of_fmap. by exists (k', v). }
      rewrite IH by done. destruct (entryOf extra k v); [done|].
      destruct (entryOf extra k' v'); [|done]. by rewrite lookup_insert_ne.
Qed.

Lemma indexOnto_lookup_Some extra result ts k e :
  indexOnto extra result ts !! k = Some e ->
  result !! k = Some e \/ exists v, (k, v) ∈ ts /\ entryOf extra k v = Some e.
Proof.
  revert result. induction ts as [|[k' v'] ts IH]; intros result Hl.
  - by left.
  - rewrite indexOnto_cons in Hl. apply IH in Hl as [Hl|(v & Hin & He)].
    + destruct (entryOf extra k' v') as [e'|] eqn:He'; [|by left].
      destruct (decide (k' = k)) as [->|Hne].
      * rewrite lookup_insert_eq in Hl. injection Hl as ->.
        right. exists v'. split; [left|done].
      * rewrite lookup_insert_ne in Hl by done. by left.
    + right. exists v. split; [by right|done].
Qed.

Lemma uniq_nonempty l : l <> [] -> uniq l <> [].
Proof. by destruct l. Qed.

(** [_.uniq] keeps exactly the elements of its argument. *)
Lemma uniq_elem el l : el ∈ uniq l <-> el ∈ l.
Proof.
  induction l as [|x l IH]; [done|]. cbn [uniq].
  rewrite !elem_of_cons, <- IH, list_elem_of_In, List.filter_In,
    <- list_elem_of_In, bool_decide_eq_true.
  destruct (decide (el = x)) as [->|Hne]; [by split; [left|left]|].
  split; [intros [?|[? _]]; [done | by right] | intros [?|?]; [done|]].
  by right.
Qed.

(** C7: a key that the index should leave out and does not.  The primary
    set has [constructor = Builder], a message without placeholder, and
    the secondary set is the default [{}], which has no value for any key;
    the read of line 179 finds the function that [{}] inherits under that
    name, and line 180 stores it. *)
Theorem index_stores_inherited_member :
  let translations := [(str "constructor", VString (str "Builder"))] in
  let extra : TranslationSet := [] in
  combinedPlaceholders extra (str "constructor") (VString (str "Builder"))
  = ret [] /\
  (forall msgSrc, (str "constructor", msgSrc) ∉ extra) /\
  exists result : PlaceholderIndex,
    extractPlaceholdersFromTranslations translations extra = ret result /\
    result !! str "constructor" = Some (Verbatim (VOther true)).
Proof.
  intros translations extra. split; [reflexivity|].
  split; [intros msgSrc; apply not_elem_of_nil|].
  exists (indexOnto extra ∅ translations).
  split; [apply extractPlaceholdersFromTranslations_ret | by vm_compute].
Qed.

(** X25: every value stored in the index is non-empty: a non-empty token
    array, or the truthy value that the read of the key on the secondary
    set gives (an own value, or an inherited member of
    [Object.prototype]), stored verbatim for a key whose combined list is
    empty; a key with an empty combined list for which that read gives a
    falsy value is left out. *)
Theorem index_never_stores_empty (translations extra : TranslationSet)
    (result : PlaceholderIndex) :
  extractPlaceholdersFromTranslations translations extra = ret result ->
  (forall msgKey e,
     result !! msgKey = Some e ->
     (exists l, e = Tokens l /\ l <> []) \/
     (exists msgSrc,
        (msgKey, msgSrc) ∈ translations /\
        combinedPlaceholders extra msgKey msgSrc = ret [] /\
        e = Verbatim (getProp extra msgKey) /\
        truthy (getProp extra msgKey) = true)) /\
  (NoDup translations.*1 ->
   forall msgKey msgSrc,
     (msgKey, msgSrc) ∈ translations ->
     combinedPlaceholders extra msgKey msgSrc = ret [] ->
     truthy (getProp extra msgKey) = false ->
     result !! msgKey = None).
Proof.
  rewrite extractPlaceholdersFromTranslations_ret. intros [= <-]. split.
  - intros k e [Hl|(v & Hin & He)]%indexOnto_lookup_Some.
    { by rewrite lookup_empty in Hl. }
    unfold entryOf in He.
    destruct (tokensOf v ++ tokensOf (getProp extra k)) as [|x l] eqn:Hc.
    + destruct (truthy (getProp extra k)) eqn:Ht; [|done].
      injection He as <-. right. exists v.
      by rewrite combinedPlaceholders_ret, Hc.
    + injection He as <-. left. exists (uniq (x :: l)). split; [done|].
      by apply uniq_nonempty.
  - intros Hnd k v Hin Hc Ht. rewrite (indexOnto_lookup _ _ _ _ v) by done.
    rewrite combinedPlaceholders_ret in Hc. injection Hc as Hc.
    unfold entryOf. by rewrite Hc, Ht, lookup_empty.
Qed.

Lemma index_never_stores_empty_witness :
  let translations :=
    [(str "greeting", VString (str "Hello {{name}}"));
     (str "farewell", VString (str "Bye"));
     (str "thanks", VString (str "Thanks"))] in
  let extra := [(str "farewell", VString (str "Goodbye"))] in
  exists result : PlaceholderIndex,
    result !! str "farewell" = Some (Verbatim (VString (str "Goodbye"))) /\
    result !! str "thanks" = None /\
    ((exists l, Verbatim (VString (str "Goodbye")) = Tokens l /\ l <> []) \/
     (exists msgSrc,
        (str "farewell", msgSrc) ∈ translations /\
        combinedPlaceholders extra (str "farewell") msgSrc = ret [] /\
        Verbatim (VString (str "Goodbye"))
        = Verbatim (getProp extra (str "farewell")) /\
        truthy (getProp extra (str "farewell")) = true)).
Proof.
  intros translations extra.
  exists (indexOnto extra ∅ translations).
  destruct (index_never_stores_empty translations extra
              (indexOnto extra ∅ translations)
              (extractPlaceholdersFromTranslations_ret _ _)) as [Hsome Hnone].
  split; [by vm_compute|]. split.
  - apply (Hnone ltac:(by_evaluation)
             (str "thanks") (VString (str "Thanks")));
      [by_evaluation | reflexivity | reflexivity].
  - apply Hsome. by vm_compute.
Defined.

(** ** Loops that collect findings *)

Lemma trace_bind {A B} (m : M A) (f : A -> M B) :
  trace (bind m f)
  = trace m ++ match outcome m with
               | Return a => trace (f a)
               | Throw _ => []
               end.
Proof.
  destruct m as [t [a|e]]; simpl.
  - by destruct (f a).
  - by rewrite app_nil_r.
Qed.

Lemma outcome_bind {A B} (m : M A) (f : A -> M B) :
  outcome (bind m f)
  = match outcome m with
    | Return a => outcome (f a)
    | Throw e => Throw e
    end.
Proof.
  destruct m as [t [a|e]]; simpl; [|done]. by destruct (f a).
Qed.

Lemma Forall_trace_bind {A B} (P : Event -> Prop) (m : M A) (f : A -> M B) :
  Forall P (trace m) ->
  (forall a, outcome m = Return a -> Forall P (trace (f a))) ->
  Forall P (trace (bind m f)).
Proof.
  intros Hm Hf. rewrite trace_bind. apply Forall_app. split; [done|].
  destruct (outcome m); [by apply Hf | constructor].
Qed.

Lemma pushEach_cons {A B} (f : A -> M (list B)) x l :
  pushEach f (x :: l)
  = bind (f x) (fun found =>
      bind (pushEach f l) (fun others => ret (found ++ others))).
Proof. reflexivity. Qed.

Lemma pushEach_cons_Return {A B} (f : A -> M (list B)) x l t fs :
  pushEach f (x :: l) = (t, Return fs) ->
  exists t1 f1 t2 f2,
    f x = (t1, Return f1) /\ pushEach f l = (t2, Return f2) /\
    t = t1 ++ t2 /\ fs = f1 ++ f2.
Proof.
  rewrite pushEach_cons.
  intros (t1 & f1 & t' & Hx & Hrest & ->)%bind_Return.
  apply bind_Return in Hrest as (t2 & f2 & t3 & Hl & [= <- <-] & ->).
  exists t1, f1, t2, f2. by rewrite app_nil_r.
Qed.

(** A finding never stops the loop: it returns as soon as every element
    is processed without an exception, whatever was found. *)
Lemma pushEach_returns {A B} (f : A -> M (list B)) l :
  (forall x, x ∈ l -> exists t fs, f x = (t, Return fs)) ->
  exists t fs, pushEach f l = (t, Return fs).
Proof.
  induction l as [|x l IH]; intros Hall.
  - by exists [], [].
  - destruct (Hall x) as (t1 & f1 & Hx); [left|].
    destruct IH as (t2 & f2 & Hl); [intros y Hy; apply Hall; by right|].
    exists (t1 ++ t2 ++ []), (f1 ++ f2).
    by rewrite pushEach_cons, Hx, Hl.
Qed.

(** ... and what it returns holds the findings of every element. *)
Lemma pushEach_collects {A B} (f : A -> M (list B)) l t fs x tx fx b :
  pushEach f l = (t, Return fs) -> x ∈ l -> f x = (tx, Return fx) ->
  b ∈ fx -> b ∈ fs.
Proof.
  revert t fs. induction l as [|y l IH]; intros t fs Hrun Hx Hfx Hb.
  - by apply elem_of_nil in Hx.
  - apply pushEach_cons_Return in Hrun
      as (t1 & f1 & t2 & f2 & Hy & Hl & -> & ->).
    apply elem_of_app. apply elem_of_cons in Hx as [->|Hx].
    + left. congruence.
    + right. by eapply IH.
Qed.

Lemma pushEach_origin {A B} (f : A -> M (list B)) l t fs b :
  pushEach f l = (t, Return fs) -> b ∈ fs ->
  exists x tx fx, x ∈ l /\ f x = (tx, Return fx) /\ b ∈ fx.
Proof.
  revert t fs. induction l as [|y l IH]; intros t fs Hrun Hb.
  - injection Hrun as <- <-. by apply elem_of_nil in Hb.
  - apply pushEach_cons_Return in Hrun
      as (t1 & f1 & t2 & f2 & Hy & Hl & -> & ->).
    apply elem_of_app in Hb as [Hb|Hb].
    + exists y, t1, f1. split; [left|done].
    + destruct (IH _ _ Hl Hb) as (x & tx & fx & ? & ? & ?).
      exists x, tx, fx. split; [by right|done].
Qed.

Lemma Forall_trace_pushEach {A B} (P : Event -> Prop)
    (f : A -> M (list B)) l :
  (forall x, x ∈ l -> Forall P (trace (f x))) ->
  Forall P (trace (pushEach f l)).
Proof.
  induction l as [|x l IH]; intros Hall; [constructor|].
  rewrite pushEach_cons. apply Forall_trace_bind; [apply Hall; left|].
  intros found _. apply Forall_trace_bind; [|intros; constructor].
  apply IH. intros y Hy. apply Hall. by right.
Qed.

Lemma outcome_pushEach_ext {A B} (f g : A -> M (list B)) l :
  (forall x, x ∈ l -> outcome (f x) = outcome (g x)) ->
  outcome (pushEach f l) = outcome (pushEach g l).
Proof.
  induction l as [|x l IH]; intros Hall; [done|].
  rewrite !pushEach_cons, !outcome_bind, Hall by left.
  destruct (outcome (g x)); [|done].
  rewrite !outcome_bind, IH; [done|]. intros y Hy. apply Hall. by right.
Qed.

Lemma filter_all {A} (P : A -> Prop) `{forall x, Decision (P x)} (l : list A) :
  Forall P l -> filter P l = l.
Proof.
  induction 1 as [|x l Hx _ IH]; [done|]. by rewrite filter_cons_True, IH.
Qed.

Lemma filter_none {A} (P : A -> Prop) `{forall x, Decision (P x)} (l : list A) :
  Forall (fun x => ~ P x) l -> filter P l = [].
Proof.
  induction 1 as [|x l Hx _ IH]; [done|]. by rewrite filter_cons_False.
Qed.

(** ** The file validator *)

(** Comparing against a token array makes no call and cannot raise: it is
    the subset test. *)
Lemma everyOf_tokens base l :
  everyOf (includes (Tokens base)) l
  = ret (bool_decide (Forall (fun el => el ∈ base) l)).
Proof.
  induction l as [|el l IH]; [done|].
  cbn [everyOf includes]. rewrite bind_ret.
  destruct (decide (el ∈ base)) as [Hin|Hout].
  - rewrite (bool_decide_eq_true_2 _ Hin), IH. f_equal.
    apply bool_decide_ext. rewrite Forall_cons. tauto.
  - rewrite (bool_decide_eq_false_2 _ Hout). f_equal. symmetry.
    apply bool_decide_eq_false_2. by intros [? _]%Forall_cons.
Qed.

Lemma everyOf_includes_trace base l : trace (everyOf (includes base) l) = [].
Proof.
  induction l as [|el l IH]; [done|]. cbn [everyOf].
  rewrite trace_bind.
  destruct base as [toks|[s|b]]; cbn [includes]; [| |done].
  - simpl. by destruct (bool_decide (el ∈ toks)).
  - simpl. by destruct (isInfix el s).
Qed.

Lemma checkPlaceholdersOf_trace lang own template msgKey :
  trace (checkPlaceholdersOf lang own template msgKey) = [].
Proof.
  unfold checkPlaceholdersOf. destruct template as [template|]; [|done].
  destruct (whenTruthy (readIndex own msgKey)) as [mine|]; [|done].
  destruct (whenTruthy (readIndex template msgKey)) as [base|]; [|done].
  rewrite trace_bind.
  assert (trace (every mine (includes base)) = []) as ->.
  { destruct mine; [apply everyOf_includes_trace | done]. }
  by destruct (outcome (every mine (includes base))).
Qed.

Lemma checkPlaceholdersOf_findings code own template msgKey t fs :
  checkPlaceholdersOf code own template msgKey = (t, Return fs) ->
  Forall (fun f => key f = msgKey /\ lang f = code /\ cause f = None
                   /\ error f <> WrongMessageformat) fs.
Proof.
  unfold checkPlaceholdersOf. destruct template as [template|].
  2:{ intros [= <- <-]. constructor. }
  destruct (whenTruthy (readIndex own msgKey)) as [mine|].
  2:{ intros [= <- <-]. constructor. }
  destruct (whenTruthy (readIndex template msgKey)) as [base|].
  2:{ intros [= <- <-]. by repeat constructor. }
  intros (t1 & found & t2 & _ & [= <- <-] & _)%bind_Return.
  destruct found; by repeat constructor.
Qed.

Lemma checkFormatOf_findings code mf msgKey s t fs :
  checkFormatOf code mf msgKey s = (t, Return fs) ->
  Forall (fun f => key f = msgKey /\ lang f = code /\ cause f = None) fs.
Proof.
  unfold checkFormatOf. destruct mf as [compiler|].
  - intros [= <- <-]. destruct (compile compiler s); by repeat constructor.
  - intros [= <- <-]. constructor.
Qed.

(** Every finding of an entry carries the entry's key and the file's
    language, and none carries a cause. *)
Lemma checkEntry_findings code mf own template ce msgKey msgSrc t fs :
  checkEntry code mf own template ce (msgKey, msgSrc) = (t, Return fs) ->
  Forall (fun f => key f = msgKey /\ lang f = code /\ cause f = None) fs.
Proof.
  unfold checkEntry. destruct (negb (truthy msgSrc)).
  { intros [= <- <-]. destruct ce; by repeat constructor. }
  destruct msgSrc as [s|b].
  2:{ intros [= <- <-]. constructor. }
  destruct (jsMatch s).
  - intros Hp%checkPlaceholdersOf_findings.
    eapply Forall_impl; [exact Hp|]. by intros f (? & ? & ? & _).
  - apply checkFormatOf_findings.
Qed.

(** The only call an entry can make is one compilation, of a string
    without a placeholder span, by a compiler that exists. *)
Lemma checkEntry_trace code mf own template ce msgKey msgSrc :
  Forall (fun ev => exists s,
            ev = EvCompile code s /\ msgSrc = VString s /\
            jsMatch s = None /\ is_Some mf)
    (trace (checkEntry code mf own template ce (msgKey, msgSrc))).
Proof.
  unfold checkEntry. destruct (negb (truthy msgSrc)); [constructor|].
  destruct msgSrc as [s|b]; [|constructor].
  destruct (jsMatch s) eqn:Hm.
  - rewrite checkPlaceholdersOf_trace. constructor.
  - unfold checkFormatOf. destruct mf as [compiler|]; [|constructor].
    repeat constructor. by exists s.
Qed.

(** Without a compiler an entry makes no call at all and reports no
    format error. *)
Lemma checkEntry_no_compiler code own template ce entry :
  trace (checkEntry code None own template ce entry) = [] /\
  forall t fs,
    checkEntry code None own template ce entry = (t, Return fs) ->
    Forall (fun f => error f <> WrongMessageformat) fs.
Proof.
  destruct entry as [msgKey msgSrc]. split.
  - pose proof (checkEntry_trace code None own template ce msgKey msgSrc)
      as Ht.
    destruct (trace _) as [|ev tr]; [done|].
    apply Forall_cons in Ht as [(s & _ & _ & _ & [? [=]]) _].
  - intros t fs. unfold checkEntry. destruct (negb (truthy msgSrc)).
    { intros [= <- <-]. destruct ce; by repeat constructor. }
    destruct msgSrc as [s|b].
    2:{ intros [= <- <-]. constructor. }
    destruct (jsMatch s).
    + intros Hp%checkPlaceholdersOf_findings.
      eapply Forall_impl; [exact Hp|]. by intros f (_ & _ & _ & ?).
    + intros [= <- <-]. constructor.
Qed.

(** The file's own index: a message with a span has its deduplicated
    tokens there, and they are not empty. *)
Lemma own_index_lookup translations msgKey s :
  NoDup translations.*1 -> (msgKey, VString s) ∈ translations ->
  jsMatch s <> None ->
  indexOnto [] ∅ translations !! msgKey
  = Some (Tokens (uniq (placeholderKeys s))) /\
  uniq (placeholderKeys s) <> [].
Proof.
  intros Hnd Hin Hm. rewrite (indexOnto_lookup _ _ _ _ (VString s)) by done.
  assert (placeholderKeys s <> []) as Hne by by rewrite <- placeholderKeys_nil.
  unfold entryOf. cbn [getProp tokensOf].
  rewrite tokensOf_inheritedValue, app_nil_r.
  destruct (placeholderKeys s) as [|x l] eqn:Hk; [done|]. split; [done|].
  by apply uniq_nonempty.
Qed.

Section Validator.
Context `{Collaborators}.

Lemma checkFileTranslations_eq translations fileName template cm ce :
  checkFileTranslations translations fileName template cm ce
  = bind (makeCompiler (fileLanguage fileName) cm) (fun mf =>
      pushEach (checkEntry (fileLanguage fileName) mf
                  (indexOnto [] ∅ translations) template ce) translations).
Proof.
  unfold checkFileTranslations.
  destruct (makeCompiler (fileLanguage fileName) cm) as [t1 [mf|e]]; [|done].
  cbn [bind]. by rewrite extractPlaceholdersFromTranslations_ret, bind_ret.
Qed.

Lemma checkFileTranslations_Return translations fileName template cm ce t fs :
  checkFileTranslations translations fileName template cm ce
  = (t, Return fs) ->
  exists mf t',
    pushEach (checkEntry (fileLanguage fileName) mf
                (indexOnto [] ∅ translations) template ce) translations
    = (t', Return fs).
Proof.
  rewrite checkFileTranslations_eq.
  intros (t1 & mf & t2 & _ & Hrun & _)%bind_Return. by exists mf, t2.
Qed.

End Validator.

(** The findings that carry a given key are those of that key's entry. *)
Lemma findings_of_key code mf own template ce translations msgKey msgSrc t fs :
  NoDup translations.*1 -> (msgKey, msgSrc) ∈ translations ->
  pushEach (checkEntry code mf own template ce) translations
  = (t, Return fs) ->
  exists tk,
    checkEntry code mf own template ce (msgKey, msgSrc)
    = (tk, Return (filter (fun f => key f = msgKey) fs)).
Proof.
  revert t fs.
  induction translations as [|[k v] ts IH]; intros t fs Hnd Hin Hrun.
  - by apply elem_of_nil in Hin.
  - cbn [fmap list_fmap fst] in Hnd. apply NoDup_cons in Hnd as [Hk Hnd].
    apply pushEach_cons_Return in Hrun
      as (t1 & f1 & t2 & f2 & Hhead & Htail & -> & ->).
    rewrite filter_app. apply elem_of_cons in Hin as [[= -> ->]|Hin].
    + exists t1. rewrite filter_all, filter_none, app_nil_r; [done| |].
      * apply Forall_forall. intros f Hf Hkey.
        destruct (pushEach_origin _ _ _ _ _ Htail Hf)
          as ([k' v'] & tx & fx & Hx & Hrun' & Hfx).
        apply checkEntry_findings in Hrun'.
        rewrite Forall_forall in Hrun'. destruct (Hrun' f Hfx) as [Hk' _].
        apply Hk. apply list_elem_of_fmap. exists (k', v').
        split; [simpl; congruence | done].
      * apply checkEntry_findings in Hhead.
        eapply Forall_impl; [exact Hhead|]. by intros f [? _].
    + assert (k <> msgKey) as Hne.
      { intros ->. apply Hk. apply list_elem_of_fmap.
        by exists (msgKey, msgSrc). }
      destruct (IH _ _ Hnd Hin Htail) as [tk Htk]. exists tk.
      rewrite filter_none; [done|].
      apply checkEntry_findings in Hhead.
      eapply Forall_impl; [exact Hhead|]. intros f [Hf _]. congruence.
Qed.

Lemma jsMatch_truthy s : jsMatch s <> None -> truthy (VString s) = true.
Proof. by destruct s. Qed.

(** The placeholder branch, for a message with a span whose own tokens
    are [own], against a template that is absent for the key or holds a
    token array for it. *)
Lemma checkEntry_placeholders code mf own_index template ce msgKey s own :
  jsMatch s <> None -> own_index !! msgKey = Some (Tokens own) ->
  checkEntry code mf own_index (Some template) ce (msgKey, VString s)
  = match readIndex template msgKey with
    | None => ret [missedPlaceholder code msgKey]
    | Some (Tokens base) =>
        ret (if bool_decide (Forall (fun el => el ∈ base) own)
             then [] else [wrongPlaceholder code msgKey])
    | Some (Verbatim v) =>
        checkPlaceholdersOf code own_index (Some template) msgKey
    end.
Proof.
  intros Hm Hown%readIndex_own. unfold checkEntry.
  rewrite (jsMatch_truthy s Hm).
  cbn [negb]. destruct (jsMatch s); [|done].
  destruct (readIndex template msgKey) as [[base|v]|] eqn:Ht; [|done|].
  - unfold checkPlaceholdersOf. rewrite Hown, Ht. cbn [whenTruthy every].
    rewrite everyOf_tokens, bind_ret.
    by destruct (bool_decide (Forall (fun el => el ∈ base) own)).
  - unfold checkPlaceholdersOf. by rewrite Hown, Ht.
Qed.

Section PlaceholderFindings.
Context `{Collaborators}.

(** X24: for a key whose message has a placeholder span (its own index
    entry [own] is then a non-empty token array): when the template index
    lacks the key and the key names no member of [Object.prototype], the
    findings for the key are exactly one missed-placeholder; when the
    template index holds a token array for the key, they are one
    wrong-placeholder if some own token is not in that array and nothing
    otherwise, so equal sets give no finding whatever the order. *)
Theorem placeholder_findings_per_key
    (translations : TranslationSet) (fileName : jsstring)
    (template placeholders : PlaceholderIndex) (cm ce : bool)
    (msgKey s : jsstring) (own : list jsstring)
    (t : list Event) (findings : list Finding) :
  NoDup translations.*1 ->
  (msgKey, VString s) ∈ translations ->
  jsMatch s <> None ->
  extractPlaceholdersFromTranslations translations [] = ret placeholders ->
  placeholders !! msgKey = Some (Tokens own) ->
  checkFileTranslations translations fileName (Some template) cm ce
  = (t, Return findings) ->
  let code := fileLanguage fileName in
  let forKey := filter (fun f => key f = msgKey) findings in
  own <> [] /\
  (template !! msgKey = None -> inherited msgKey = false ->
   forKey = [missedPlaceholder code msgKey]) /\
  (forall base,
     template !! msgKey = Some (Tokens base) ->
     ((forKey = [wrongPlaceholder code msgKey] /\
       exists el, el ∈ own /\ el ∉ base) \/
      (forKey = [] /\ forall el, el ∈ own -> el ∈ base)) /\
     ((forall el, el ∈ own <-> el ∈ base) -> forKey = [])).
Proof.
  intros Hnd Hin Hm Hidx Hown Hrun code forKey.
  rewrite extractPlaceholdersFromTranslations_ret in Hidx.
  injection Hidx as <-.
  destruct (own_index_lookup translations msgKey s Hnd Hin Hm)
    as [Hlook Hne].
  rewrite Hlook in Hown. injection Hown as <-. split; [done|].
  apply checkFileTranslations_Return in Hrun as (mf & t' & Hrun).
  destruct (findings_of_key _ _ _ _ _ _ _ _ _ _ Hnd Hin Hrun) as [tk Hk].
  fold forKey in Hk. fold code in Hk.
  rewrite (checkEntry_placeholders _ _ _ _ _ _ _ _ Hm Hlook) in Hk.
  split.
  - intros Hnone Hplain. rewrite (readIndex_absent _ _ Hnone), Hplain in Hk.
    by injection Hk as _ ->.
  - intros base Hbase. rewrite (readIndex_own _ _ _ Hbase) in Hk.
    injection Hk as _ Hk.
    set (own := uniq (placeholderKeys s)) in *.
    destruct (decide (Forall (fun el => el ∈ base) own)) as [Hall|Hnot].
    + rewrite (bool_decide_eq_true_2 _ Hall) in Hk. split; [|done].
      right. split; [done|]. by apply Forall_forall.
    + rewrite (bool_decide_eq_false_2 _ Hnot) in Hk. split.
      * left. split; [done|].
        apply not_Forall_Exists in Hnot; [|apply _].
        apply Exists_exists in Hnot as (el & ? & ?). by exists el.
      * intros Hsame. destruct Hnot. apply Forall_forall.
        intros el Hel. by apply Hsame.
Qed.

End PlaceholderFindings.

(** C3: two inputs at which the code does not report what the claim
    says.  At a template entry stored verbatim: the base has
    [farewell = Bye] and the extra file [farewell = Goodbye], so neither
    has a token for the key, and line 180 stores the string [Goodbye]
    under it; the translation [Adios {{bye}}] uses the token [bye], which
    is no template token, and no finding is emitted, because [bye] is a
    substring of [Goodbye] (line 135).  At a key that names a member of
    [Object.prototype]: the template index has no entry for [toString],
    the translation [toString = {{name}}] has a placeholder, and instead
    of the missed-placeholder finding the validation raises a
    [TypeError], because line 125 reads the inherited function. *)
Theorem placeholder_check_misses_findings :
  (let en := [(str "farewell", VString (str "Bye"))] in
   let ex := [(str "farewell", VString (str "Goodbye"))] in
   let es := [(str "farewell", VString (str "Adios {{bye}}"))] in
   exists template : PlaceholderIndex,
     extractPlaceholdersFromTranslations en ex = ret template /\
     template !! str "farewell" = Some (Verbatim (VString (str "Goodbye"))) /\
     combinedPlaceholders ex (str "farewell") (VString (str "Bye")) = ret [] /\
     extractPlaceholdersKeysFromMsg (VString (str "Adios {{bye}}"))
     = ret [str "bye"] /\
     outcome (@checkFileTranslations Demo.world es
                (str "messages-es.properties") (Some template) true true)
     = Return []) /\
  (let en := [(str "greeting", VString (str "Hello {{name}}"))] in
   let es := [(str "toString", VString (str "{{name}}"))] in
   exists template : PlaceholderIndex,
     extractPlaceholdersFromTranslations en [] = ret template /\
     template !! str "toString" = None /\
     outcome (@checkFileTranslations Demo.world es
                (str "messages-es.properties") (Some template) true true)
     = Throw TypeError).
Proof.
  split.
  - intros en ex es. exists (indexOnto ex ∅ en).
    split; [apply extractPlaceholdersFromTranslations_ret|].
    repeat split; by vm_compute.
  - intros en es. exists (indexOnto [] ∅ en).
    split; [apply extractPlaceholdersFromTranslations_ret|].
    split; by vm_compute.
Qed.

Lemma placeholder_findings_per_key_witness :
  let en := [(str "greeting", VString (str "Hello {{name}}"))] in
  let es := [(str "greeting", VString (str "Hola {{nombre}}"));
             (str "farewell", VString (str "Adios {{name}}"))] in
  let findings :=
    [wrongPlaceholder (str "es") (str "greeting");
     missedPlaceholder (str "es") (str "farewell")] in
  filter (fun f => key f = str "farewell") findings
  = [missedPlaceholder (str "es") (str "farewell")] /\
  filter (fun f => key f = str "greeting") findings
  = [wrongPlaceholder (str "es") (str "greeting")].
Proof.
  intros en es findings.
  assert (NoDup es.*1) as Hnd by by_evaluation.
  assert (@checkFileTranslations Demo.world es (str "messages-es.properties")
            (Some (indexOnto [] ∅ en)) true true
          = ([EvNewMessageFormat (str "es")], Return findings)) as Hrun
    by by vm_compute.
  split.
  - destruct (@placeholder_findings_per_key Demo.world es
                (str "messages-es.properties") (indexOnto [] ∅ en)
                (indexOnto [] ∅ es) true true
                (str "farewell") (str "Adios {{name}}") [str "name"]
                _ findings Hnd ltac:(by_evaluation) ltac:(by vm_compute)
                (extractPlaceholdersFromTranslations_ret _ _)
                ltac:(by vm_compute) Hrun) as (_ & Hmissed & _).
    apply Hmissed; by vm_compute.
  - destruct (@placeholder_findings_per_key Demo.world es
                (str "messages-es.properties") (indexOnto [] ∅ en)
                (indexOnto [] ∅ es) true true
                (str "greeting") (str "Hola {{nombre}}") [str "nombre"]
                _ findings Hnd ltac:(by_evaluation) ltac:(by vm_compute)
                (extractPlaceholdersFromTranslations_ret _ _)
                ltac:(by vm_compute) Hrun) as (_ & _ & Hbase).
    destruct (Hbase [str "name"] ltac:(by vm_compute))
      as [[[Hwrong _]|[_ Hall]] _]; [exact Hwrong|].
    exfalso. specialize (Hall (str "nombre") ltac:(by_evaluation)).
    revert Hall. apply (bool_decide_unpack _). by vm_compute.
Defined.

Lemma Forall_False_nil {A} (l : list A) : Forall (fun _ => False) l -> l = [].
Proof. by destruct 1. Qed.

Lemma pushEach_no_compiler code own template ce translations :
  trace (pushEach (checkEntry code None own template ce) translations) = [] /\
  forall t fs,
    pushEach (checkEntry code None own template ce) translations
    = (t, Return fs) ->
    Forall (fun f => error f <> WrongMessageformat) fs.
Proof.
  split.
  - apply Forall_False_nil, Forall_trace_pushEach. intros entry _.
    by destruct (checkEntry_no_compiler code own template ce entry) as [-> _].
  - intros t fs Hrun. apply Forall_forall. intros f Hf.
    destruct (pushEach_origin _ _ _ _ _ Hrun Hf) as (x & tx & fx & _ & Hx & Hfx).
    destruct (checkEntry_no_compiler code own template ce x) as [_ Hno].
    specialize (Hno _ _ Hx). rewrite Forall_forall in Hno. by apply Hno.
Qed.

Section FormatChecks.
Context `{Collaborators}.

(** No finding of the file validator carries a cause. *)
Lemma findings_carry_no_cause translations fileName template cm ce t fs :
  checkFileTranslations translations fileName template cm ce
  = (t, Return fs) ->
  Forall (fun f => cause f = None) fs.
Proof.
  intros (mf & t' & Hrun)%checkFileTranslations_Return.
  apply Forall_forall. intros f Hf.
  destruct (pushEach_origin _ _ _ _ _ Hrun Hf)
    as ([k v] & tx & fx & _ & Hx & Hfx).
  apply checkEntry_findings in Hx. rewrite Forall_forall in Hx.
  by destruct (Hx f Hfx) as (_ & _ & ?).
Qed.

(** The calls of the file validator: the construction of the compiler and
    compilations, each of a string message of the file without a
    placeholder span, with the check on and a compiler constructed. *)
Lemma checkFileTranslations_calls translations fileName template cm ce :
  Forall (fun ev =>
            match ev with
            | EvCompile l s =>
                l = fileLanguage fileName /\ cm = true /\
                is_Some (newMessageFormat (fileLanguage fileName)) /\
                jsMatch s = None /\
                exists msgKey, (msgKey, VString s) ∈ translations
            | EvNewMessageFormat l => l = fileLanguage fileName /\ cm = true
            | _ => False
            end)
    (trace (checkFileTranslations translations fileName template cm ce)).
Proof.
  rewrite checkFileTranslations_eq. apply Forall_trace_bind.
  - unfold makeCompiler. destruct cm; by repeat constructor.
  - intros mf Hmf. apply Forall_trace_pushEach. intros [k v] Hin.
    eapply Forall_impl; [apply checkEntry_trace|].
    intros ev (s & -> & -> & Hs & Hsome). cbn beta iota.
    unfold makeCompiler in Hmf. destruct cm.
    + injection Hmf as <-. repeat split; try done. by exists k.
    + injection Hmf as <-. by destruct Hsome.
Qed.

(** C5: the only calls the file validator makes are the construction of
    the compiler, when [checkMessageformat] is on, and compilations; what
    is compiled is always a string message of the file without a
    placeholder span, with the check on and a compiler constructed for the
    file's language.  When the construction fails nothing is compiled and
    the findings are those of a run with the check off, none of them a
    format error. *)
Theorem format_check_is_gated
    (translations : TranslationSet) (fileName : jsstring)
    (template : option PlaceholderIndex) (cm ce : bool) :
  let code := fileLanguage fileName in
  let run := checkFileTranslations translations fileName template cm ce in
  Forall (fun ev =>
            match ev with
            | EvCompile l s =>
                l = code /\ cm = true /\ is_Some (newMessageFormat code) /\
                jsMatch s = None /\
                exists msgKey, (msgKey, VString s) ∈ translations
            | EvNewMessageFormat l => l = code /\ cm = true
            | _ => False
            end) (trace run) /\
  (newMessageFormat code = None ->
   Forall (fun ev => forall l s, ev <> EvCompile l s) (trace run) /\
   outcome run
   = outcome (checkFileTranslations translations fileName template false ce)
   /\
   forall fs, outcome run = Return fs ->
              Forall (fun f => error f <> WrongMessageformat) fs).
Proof.
  intros code run. split; [apply checkFileTranslations_calls|].
  subst run. rewrite !checkFileTranslations_eq.
  subst code. set (code := fileLanguage fileName).
  intros Hnone.
  destruct (pushEach_no_compiler code (indexOnto [] ∅ translations)
              template ce translations) as [Htrace Hkinds].
  destruct (pushEach (checkEntry code None (indexOnto [] ∅ translations)
                        template ce) translations) as [t o] eqn:Hrun.
  cbn [trace fst] in Htrace. subst t.
  unfold makeCompiler. rewrite Hnone.
  destruct cm; unfold bind, ret; rewrite Hrun;
    cbn [trace outcome fst snd app].
  - split; [by repeat constructor|]. split; [done|].
    intros fs ->. by eapply Hkinds.
  - split; [constructor|]. split; [done|].
    intros fs ->. by eapply Hkinds.
Qed.

End FormatChecks.

(** C4 at the failing input: an unterminated plural message in the base
    file, with the format check on and a known language.  The one finding
    is a format error and carries no cause. *)
Lemma format_finding_without_cause :
  let translations :=
    [(str "plural", VString (str "{count, plural, one{1} other{}"))] in
  exists f,
    outcome (@checkFileTranslations Demo.world translations EN_FILE None
               true true) = Return [f] /\
    error f = WrongMessageformat /\ cause f = None.
Proof.
  intros translations.
  exists (wrongMessageformat (str "en") (str "plural")
            (str "{count, plural, one{1} other{}")
            {| errMessage := str "unbalanced braces" |}).
  by vm_compute.
Qed.

Lemma format_check_is_gated_witness :
  let translations :=
    [(str "plural", VString (str "{count, plural, one{1} other{}"))] in
  let run :=
    @checkFileTranslations Demo.world translations
      (str "messages-xx.properties") None true true in
  Forall (fun ev => forall l s, ev <> EvCompile l s) (trace run) /\
  outcome run = Return [].
Proof.
  intros translations run.
  destruct (@format_check_is_gated Demo.world translations
              (str "messages-xx.properties") None true true) as [_ Hfail].
  destruct (Hfail ltac:(by vm_compute)) as (Hnone & Hsame & _).
  split; [exact Hnone|]. etransitivity; [exact Hsame|]. by vm_compute.
Defined.

(** ** The translation set checker *)

Lemma outcome_await {A} ev (a : A) : outcome (await ev (inr a)) = Return a.
Proof. reflexivity. Qed.

Lemma found_Return {A} (m : M (list A)) t fs :
  m = (t, Return fs) -> found m = fs.
Proof. by intros ->. Qed.

(** A loop that skips some elements: when every processed element returns,
    the loop returns their findings, in order. *)
Lemma pushEach_skipping {A B} (keep : A -> Prop) `{forall x, Decision (keep x)}
    (g : A -> M (list B)) (l : list A) :
  (forall x, x ∈ l -> keep x -> exists t fs, g x = (t, Return fs)) ->
  outcome (pushEach (fun x => if bool_decide (keep x) then g x else ret []) l)
  = Return (concat (List.map (fun x => found (g x)) (filter keep l))).
Proof.
  induction l as [|x l IH]; intros Hall; [done|].
  rewrite pushEach_cons, outcome_bind.
  assert (forall y, y ∈ l -> keep y -> exists t fs, g y = (t, Return fs))
    as Hl by (intros y Hy; apply Hall; by right).
  destruct (decide (keep x)) as [Hx|Hx].
  - rewrite (bool_decide_eq_true_2 _ Hx), filter_cons_True by done.
    destruct (Hall x) as (t & fs & Hg); [left|done|].
    rewrite Hg. cbn [outcome snd]. rewrite outcome_bind, IH by done.
    cbn [List.map concat]. by rewrite (found_Return _ _ _ Hg).
  - rewrite (bool_decide_eq_false_2 _ Hx), filter_cons_False by done.
    cbn [outcome snd ret]. by rewrite outcome_bind, IH.
Qed.

Section Runs.
Context `{Collaborators}.
Context (options : Options) (dir : jsstring) (fileNames : list jsstring)
        (content : jsstring -> TranslationSet).
Hypothesis files_parse :
  forall f, f ∈ fileNames -> parseProperties dir f = inr (content f).

(** Lines 55-66 return the base set, the extra set and the template
    index. *)
Lemma loadTemplates_outcome :
  outcome (loadTemplates options dir fileNames)
  = Return
      (if checkPlaceholders options && bool_decide (EN_FILE ∈ fileNames)
       then content EN_FILE else [],
       if checkPlaceholders options && bool_decide (EX_FILE ∈ fileNames)
       then content EX_FILE else [],
       templateOf options fileNames content).
Proof.
  unfold loadTemplates, templateOf.
  destruct (checkPlaceholders options); [|done]. cbn [andb].
  rewrite outcome_bind.
  assert (forall g,
    outcome (if bool_decide (g ∈ fileNames)
             then await (EvParse dir g) (parseProperties dir g)
             else ret [])
    = Return (if bool_decide (g ∈ fileNames) then content g else []))
    as Hload.
  { intros g. case_bool_decide as Hg; [|done].
    by rewrite (files_parse g Hg). }
  rewrite (Hload EN_FILE), outcome_bind, (Hload EX_FILE), outcome_bind.
  by rewrite extractPlaceholdersFromTranslations_ret.
Qed.

(** Lines 68-83, for a discovered file: the extra file is skipped, any
    other file is validated on its parsed content. *)
Lemma validateFile_outcome ex fileName :
  fileName ∈ fileNames ->
  outcome (validateFile options dir
             (if checkPlaceholders options && bool_decide (EN_FILE ∈ fileNames)
              then content EN_FILE else [])
             ex (templateOf options fileNames content) fileName)
  = outcome (if bool_decide (fileName ≠ EX_FILE)
             then validation options fileNames content fileName
             else ret []).
Proof.
  intros Hin. unfold validateFile, validation. rewrite outcome_bind.
  destruct (checkPlaceholders options) eqn:Hcp; cbn [andb].
  - destruct (decide (fileName = EN_FILE)) as [Hen|Hen].
    { rewrite (bool_decide_eq_true_2 _ Hen). subst fileName.
      rewrite (bool_decide_eq_true_2 _ Hin). cbn [outcome snd ret].
      by rewrite bool_decide_eq_true_2. }
    rewrite (bool_decide_eq_false_2 _ Hen).
    destruct (decide (fileName = EX_FILE)) as [Hex|Hex].
    { rewrite (bool_decide_eq_true_2 (fileName = EX_FILE) Hex).
      cbn [outcome snd ret].
      rewrite bool_decide_eq_false_2; [done|]. by intros []. }
    rewrite (bool_decide_eq_false_2 (fileName = EX_FILE) Hex).
    rewrite (files_parse _ Hin), outcome_await.
    by rewrite bool_decide_eq_true_2.
  - rewrite (files_parse _ Hin), outcome_await. by case_bool_decide.
Qed.

(** A run in which discovery and every parse succeed and no validation
    raises. *)
Lemma run_outcome arg :
  translationFileNames dir (languages options) = inr fileNames ->
  (forall f, f ∈ fileNames -> f ≠ EX_FILE ->
     exists t fs, validation options fileNames content f = (t, Return fs)) ->
  outcome (checkTranslations (Some options) dir arg)
  = match allFindings options fileNames content with
    | [] => Return fileNames
    | (_ :: _) as errors =>
        Throw (TranslationException
                 (str "Error trying to compile translations")
                 errors fileNames)
    end.
Proof.
  intros Hdisc Hvalid. unfold checkTranslations. cbn zeta.
  cbn [resolveOptions]. rewrite bind_ret, outcome_bind, Hdisc, outcome_await.
  rewrite outcome_bind.
  rewrite loadTemplates_outcome, outcome_bind.
  rewrite (outcome_pushEach_ext _
             (fun f => if bool_decide (f ≠ EX_FILE)
                       then validation options fileNames content f
                       else ret [])).
  2:{ intros f Hf. by apply validateFile_outcome. }
  rewrite (pushEach_skipping (fun f => f ≠ EX_FILE)) by done.
  fold (validated fileNames). fold (allFindings options fileNames content).
  by destruct (allFindings options fileNames content).
Qed.

End Runs.

(** ** Counting the parses of a run *)

Lemma parses_nil dir g : parses dir g [] = 0%nat.
Proof. reflexivity. Qed.

Lemma parses_app dir g t1 t2 :
  parses dir g (t1 ++ t2) = (parses dir g t1 + parses dir g t2)%nat.
Proof. unfold parses. by rewrite filter_app, length_app. Qed.

Lemma parses_bind {A B} dir g (m : M A) (f : A -> M B) :
  parses dir g (trace (bind m f))
  = (parses dir g (trace m)
     + match outcome m with
       | Return a => parses dir g (trace (f a))
       | Throw _ => 0
       end)%nat.
Proof.
  rewrite trace_bind, parses_app. by destruct (outcome m).
Qed.

Lemma parses_none dir g t :
  Forall (fun ev => ev <> EvParse dir g) t -> parses dir g t = 0%nat.
Proof. intros Hall. unfold parses. by rewrite filter_none. Qed.

Lemma parses_await {A} dir g f (r : jsstring + A) :
  parses dir g (trace (await (EvParse dir f) r))
  = if bool_decide (f = g) then 1%nat else 0%nat.
Proof.
  unfold parses, await. cbn [trace fst]. case_bool_decide as Hf.
  - subst f. by rewrite filter_cons_True.
  - rewrite filter_cons_False; [done|]. congruence.
Qed.

Lemma filter_eq_NoDup (g : jsstring) (l : list jsstring) :
  NoDup l -> (length (filter (fun f => f = g) l) <= 1)%nat.
Proof.
  induction 1 as [|x l Hx Hnd IH]; [simpl; lia|].
  destruct (decide (x = g)) as [->|Hne].
  - rewrite filter_cons_True by done.
    rewrite filter_none; [simpl; lia|].
    apply Forall_forall. by intros y Hy ->.
  - by rewrite filter_cons_False.
Qed.

Lemma EN_EX_differ : EN_FILE <> EX_FILE.
Proof. by vm_compute. Qed.

Section Parses.
Context `{Collaborators}.
Context (options : Options) (dir : jsstring).

Lemma checkFileTranslations_parses g translations fileName template cm ce :
  parses dir g
    (trace (checkFileTranslations translations fileName template cm ce))
  = 0%nat.
Proof.
  apply parses_none.
  eapply Forall_impl; [apply checkFileTranslations_calls|].
  intros ev Hev ->. exact Hev.
Qed.

Lemma loadTemplates_parses g fileNames :
  (parses dir g (trace (loadTemplates options dir fileNames))
   <= if checkPlaceholders options then 1 else 0)%nat.
Proof.
  unfold loadTemplates. destruct (checkPlaceholders options); [|done].
  rewrite parses_bind.
  assert (forall f,
    parses dir g
      (trace (if bool_decide (f ∈ fileNames)
              then await (EvParse dir f) (parseProperties dir f)
              else ret []))
    <= if bool_decide (f = g) then 1 else 0)%nat as Hone.
  { intros f. destruct (bool_decide (f ∈ fileNames)).
    - by rewrite parses_await.
    - cbn. lia. }
  pose proof (Hone EN_FILE) as Hen. pose proof (Hone EX_FILE) as Hex.
  assert (forall en,
    parses dir g
      (trace (bind (if bool_decide (EX_FILE ∈ fileNames)
                    then await (EvParse dir EX_FILE)
                           (parseProperties dir EX_FILE)
                    else ret [])
                (fun ex =>
                   bind (extractPlaceholdersFromTranslations en ex)
                     (fun tp => ret (en, ex, Some tp)))))
    <= if bool_decide (EX_FILE = g) then 1 else 0)%nat as Hrest.
  { intros en. rewrite parses_bind.
    destruct (outcome _) as [ex|e]; [|lia].
    rewrite extractPlaceholdersFromTranslations_ret, bind_ret.
    cbn [trace fst ret]. rewrite parses_nil. lia. }
  destruct (outcome _) as [en|e].
  - specialize (Hrest en). pose proof EN_EX_differ.
    repeat case_bool_decide; subst; try done; lia.
  - destruct (bool_decide (EN_FILE = g)); lia.
Qed.

Lemma validateFile_parses g en ex template fileName :
  g = EN_FILE \/ g = EX_FILE ->
  (parses dir g (trace (validateFile options dir en ex template fileName))
   <= if checkPlaceholders options then 0
      else if bool_decide (fileName = g) then 1 else 0)%nat.
Proof.
  intros Hg. unfold validateFile. rewrite parses_bind.
  assert (forall translations,
    parses dir g
      (trace (if bool_decide (fileName ≠ EX_FILE)
              then checkFileTranslations translations fileName template
                     (checkMessageformat options) (checkEmpties options)
              else ret [])) = 0%nat) as Hcheck.
  { intros translations. case_bool_decide; [|done].
    apply checkFileTranslations_parses. }
  destruct (checkPlaceholders options); cbn [andb].
  - destruct (decide (fileName = EN_FILE)) as [Hen|Hen].
    { rewrite (bool_decide_eq_true_2 _ Hen).
      cbn [outcome trace ret fst snd]. by rewrite Hcheck. }
    rewrite (bool_decide_eq_false_2 _ Hen).
    destruct (decide (fileName = EX_FILE)) as [Hex|Hex].
    { rewrite (bool_decide_eq_true_2 (fileName = EX_FILE) Hex).
      cbn [outcome trace ret fst snd]. by rewrite Hcheck. }
    rewrite (bool_decide_eq_false_2 (fileName = EX_FILE) Hex).
    rewrite parses_await.
    rewrite (bool_decide_eq_false_2 (fileName = g))
      by (destruct Hg; congruence).
    destruct (outcome _); by rewrite ?Hcheck.
  - rewrite parses_await. destruct (outcome _); rewrite ?Hcheck; lia.
Qed.

Lemma validateFiles_parses g en ex template fileNames :
  g = EN_FILE \/ g = EX_FILE ->
  (parses dir g
     (trace (pushEach (validateFile options dir en ex template) fileNames))
   <= if checkPlaceholders options then 0
      else length (filter (fun f => f = g) fileNames))%nat.
Proof.
  intros Hg. induction fileNames as [|f l IH]; [by destruct checkPlaceholders|].
  rewrite pushEach_cons, parses_bind.
  pose proof (validateFile_parses g en ex template f Hg) as Hf.
  assert (forall found : list Finding,
    parses dir g
      (trace (bind (pushEach (validateFile options dir en ex template) l)
                (fun others => ret (found ++ others))))
    = parses dir g
        (trace (pushEach (validateFile options dir en ex template) l)))
    as Hrest.
  { intros found. rewrite parses_bind. destruct (outcome _); cbn; lia. }
  destruct (checkPlaceholders options).
  - destruct (outcome _); rewrite ?Hrest; lia.
  - destruct (decide (f = g)) as [->|Hne].
    + rewrite filter_cons_True by done.
      rewrite bool_decide_eq_true_2 in Hf by done.
      destruct (outcome _); rewrite ?Hrest; simpl; lia.
    + rewrite filter_cons_False by done.
      rewrite bool_decide_eq_false_2 in Hf by done.
      destruct (outcome _); rewrite ?Hrest; lia.
Qed.

End Parses.

(** Neither the base file nor the extra file is parsed twice in a run
    whose discovery lists no file twice. *)
Lemma run_parses `{Collaborators} outer dir arg g :
  g = EN_FILE \/ g = EX_FILE ->
  (forall langs names,
     translationFileNames dir langs = inr names -> NoDup names) ->
  (parses dir g (trace (checkTranslations outer dir arg)) <= 1)%nat.
Proof.
  intros Hg Hnd. unfold checkTranslations. cbn zeta.
  destruct outer as [options|]; cbn [resolveOptions]; [|cbn; lia].
  rewrite bind_ret, parses_bind.
  assert (parses dir g
            (trace (await (EvDiscover dir (languages options))
                      (translationFileNames dir (languages options))))
          = 0%nat)
    as -> by by apply parses_none; repeat constructor.
  destruct (translationFileNames dir (languages options))
    as [e|names] eqn:Hd; [cbn; lia|].
  specialize (Hnd _ _ Hd). cbn [outcome await snd]. rewrite parses_bind.
  pose proof (loadTemplates_parses options dir g names) as Hload.
  destruct (outcome (loadTemplates options dir names))
    as [[[en ex] template]|e]; [|destruct (checkPlaceholders options); lia].
  rewrite parses_bind.
  pose proof (validateFiles_parses options dir g en ex template names Hg)
    as Hloop.
  pose proof (filter_eq_NoDup g names Hnd) as Hone.
  assert (forall errors : list Finding,
    parses dir g
      (trace (match errors with
              | [] => ret names
              | _ :: _ =>
                  throw (TranslationException
                           (str "Error trying to compile translations")
                           errors names)
              end)) = 0%nat) as Hend by by intros [|? ?].
  destruct (outcome (pushEach _ names)) as [errors|e];
    rewrite ?Hend; destruct (checkPlaceholders options); lia.
Qed.

(** ** Runs and their findings *)

Lemma pushEach_found {A B} (f : A -> M (list B)) l t fs :
  pushEach f l = (t, Return fs) ->
  fs = concat (List.map (fun x => found (f x)) l).
Proof.
  revert t fs. induction l as [|x l IH]; intros t fs Hrun.
  - injection Hrun as <- <-. reflexivity.
  - apply pushEach_cons_Return in Hrun
      as (t1 & f1 & t2 & f2 & Hx & Hl & -> & ->).
    cbn [List.map concat]. by rewrite (found_Return _ _ _ Hx), (IH _ _ Hl).
Qed.

Lemma elem_of_concat_map {A B} (g : A -> list B) (l : list A) (b : B) :
  b ∈ concat (List.map g l) <-> exists x, x ∈ l /\ b ∈ g x.
Proof.
  rewrite list_elem_of_In, in_concat. split.
  - intros (bs & (x & <- & Hx)%in_map_iff & Hb).
    exists x. by rewrite !list_elem_of_In.
  - intros (x & Hx & Hb). exists (g x). split.
    + apply in_map_iff. exists x. split; [done|]. by apply list_elem_of_In.
    + by apply list_elem_of_In.
Qed.

Section Findings.
Context `{Collaborators}.

Lemma checkFileTranslations_entries translations fileName template cm ce t fs :
  checkFileTranslations translations fileName template cm ce
  = (t, Return fs) ->
  exists t',
    pushEach (checkEntry (fileLanguage fileName) (compilerFor fileName cm)
                (indexOnto [] ∅ translations) template ce) translations
    = (t', Return fs).
Proof.
  rewrite checkFileTranslations_eq.
  intros (t1 & mf & t2 & Hmf & Hrun & _)%bind_Return. exists t2.
  unfold makeCompiler, compilerFor in *.
  destruct cm; by injection Hmf as _ <-.
Qed.

(** Against an empty template index no comparison is made, and the file
    validator returns, when no message with a placeholder span has a key
    that names a member of [Object.prototype]. *)
Lemma checkFileTranslations_empty_template translations fileName cm ce :
  (forall k s, (k, VString s) ∈ translations -> jsMatch s <> None ->
               inherited k = false) ->
  exists t fs,
    checkFileTranslations translations fileName (Some ∅) cm ce
    = (t, Return fs).
Proof.
  intros Hplain.
  rewrite checkFileTranslations_eq.
  destruct (pushEach_returns
              (checkEntry (fileLanguage fileName) (compilerFor fileName cm)
                 (indexOnto [] ∅ translations) (Some ∅) ce) translations)
    as (t & fs & Hrun).
  { intros [k v] Hin. unfold checkEntry.
    destruct (negb (truthy v)); [by eauto|].
    destruct v as [s|b]; [|by eauto]. destruct (jsMatch s) eqn:Hm.
    - unfold checkPlaceholdersOf.
      rewrite (readIndex_absent ∅ k) by apply lookup_empty.
      rewrite (Hplain k s Hin) by by rewrite Hm. cbn [whenTruthy].
      destruct (whenTruthy _); by eauto.
    - unfold checkFormatOf. destruct (compilerFor fileName cm); by eauto. }
  unfold makeCompiler, compilerFor in *.
  destruct cm; unfold bind, ret; rewrite Hrun; by eauto.
Qed.

End Findings.

Lemma returned_true {A} (m : M A) :
  returned m = true -> exists t a, m = (t, Return a).
Proof. destruct m as [t [a|e]]; [by eauto | done]. Qed.

Lemma pushEach_each_returns {A B} (f : A -> M (list B)) l t fs x :
  pushEach f l = (t, Return fs) -> x ∈ l ->
  exists tx fx, f x = (tx, Return fx).
Proof.
  revert t fs. induction l as [|y l IH]; intros t fs Hrun Hx.
  - by apply elem_of_nil in Hx.
  - apply pushEach_cons_Return in Hrun
      as (t1 & f1 & t2 & f2 & Hy & Hl & -> & ->).
    apply elem_of_cons in Hx as [->|Hx]; [by eauto | by eapply IH].
Qed.

Section Aggregation.
Context `{Collaborators}.
Context (options : Options) (dir : jsstring) (arg : option CallOptions)
        (fileNames : list jsstring) (content : jsstring -> TranslationSet).

(** C2: in a run that gets through its files (discovery and every parse
    succeed, no validation raises), every entry of every validated file
    is processed and the findings of a file are those of all its entries
    in order, whatever was found before; the run then ends in exactly one
    way: it returns the file names when the accumulated findings (those
    of all validated files, in order) are empty, and otherwise raises the
    [TranslationException] carrying the fixed message, all the findings
    and all the file names. *)
Theorem findings_are_aggregated :
  translationFileNames dir (languages options) = inr fileNames ->
  (forall f, f ∈ fileNames -> parseProperties dir f = inr (content f)) ->
  (forall f, f ∈ fileNames -> f ≠ EX_FILE ->
     exists t fs, validation options fileNames content f = (t, Return fs)) ->
  let errors := allFindings options fileNames content in
  let check f :=
    checkEntry (fileLanguage f) (compilerFor f (checkMessageformat options))
      (indexOnto [] ∅ (content f)) (templateOf options fileNames content)
      (checkEmpties options) in
  (forall f, f ∈ fileNames -> f ≠ EX_FILE ->
     (forall entry, entry ∈ content f ->
        exists t fs, check f entry = (t, Return fs)) /\
     found (validation options fileNames content f)
     = concat (List.map (fun entry => found (check f entry)) (content f))) /\
  errors
  = concat (List.map (fun f => found (validation options fileNames content f))
              (filter (fun f => f ≠ EX_FILE) fileNames)) /\
  outcome (checkTranslations (Some options) dir arg)
  = match errors with
    | [] => Return fileNames
    | _ :: _ =>
        Throw (TranslationException
                 (str "Error trying to compile translations")
                 errors fileNames)
    end.
Proof.
  intros Hdisc Hparse Hvalid errors check. split; [|split; [done|]].
  - intros f Hf Hne. destruct (Hvalid f Hf Hne) as (t & fs & Hrun).
    rewrite (found_Return _ _ _ Hrun).
    apply checkFileTranslations_entries in Hrun as [t' Hrun]. split.
    + intros entry Hentry. by eapply pushEach_each_returns.
    + by eapply pushEach_found.
  - rewrite (run_outcome options dir fileNames content Hparse arg Hdisc Hvalid).
    fold errors. by destruct errors.
Qed.

(** C6: whatever the scope and the argument, neither the base file nor
    the extra file is parsed more than once when discovery lists no file
    twice.  A run that gets through its files ends with the findings of
    the discovered files other than the extra file, and with nothing
    else: it raises the aggregate error that carries exactly these
    findings, those of the validation of the base file among them, or,
    when there is none, returns every discovered name, the extra file's
    too. *)
Theorem base_and_extra_files :
  (forall langs names,
     translationFileNames dir langs = inr names -> NoDup names) ->
  translationFileNames dir (languages options) = inr fileNames ->
  (forall f, f ∈ fileNames -> parseProperties dir f = inr (content f)) ->
  (forall f, f ∈ fileNames -> f ≠ EX_FILE ->
     exists t fs, validation options fileNames content f = (t, Return fs)) ->
  let errors := allFindings options fileNames content in
  (forall outer,
     (parses dir EN_FILE (trace (checkTranslations outer dir arg)) <= 1)%nat /\
     (parses dir EX_FILE (trace (checkTranslations outer dir arg)) <= 1)%nat)
  /\
  outcome (checkTranslations (Some options) dir arg)
  = match errors with
    | [] => Return fileNames
    | _ :: _ =>
        Throw (TranslationException
                 (str "Error trying to compile translations")
                 errors fileNames)
    end /\
  (forall e,
     e ∈ errors <->
     exists f, f ∈ fileNames /\ f ≠ EX_FILE /\
               e ∈ found (validation options fileNames content f)) /\
  (EN_FILE ∈ fileNames ->
   forall e,
     e ∈ found (checkFileTranslations (content EN_FILE) EN_FILE
                  (templateOf options fileNames content)
                  (checkMessageformat options) (checkEmpties options)) ->
     exists errs,
       outcome (checkTranslations (Some options) dir arg)
       = Throw (TranslationException
                  (str "Error trying to compile translations")
                  errs fileNames) /\
       e ∈ errs) /\
  (errors = [] ->
   outcome (checkTranslations (Some options) dir arg) = Return fileNames) /\
  (forall names,
     outcome (checkTranslations (Some options) dir arg) = Return names ->
     EX_FILE ∈ fileNames -> EX_FILE ∈ names).
Proof.
  intros Hnd Hdisc Hparse Hvalid errors.
  assert (forall e,
    e ∈ errors <->
    exists f, f ∈ fileNames /\ f ≠ EX_FILE /\
              e ∈ found (validation options fileNames content f)) as Hfrom.
  { intros e. unfold errors, allFindings, validated.
    rewrite elem_of_concat_map. split.
    - intros (f & [Hne Hf]%list_elem_of_filter & He). by exists f.
    - intros (f & Hf & Hne & He). exists f. split; [|done].
      by apply list_elem_of_filter. }
  pose proof (run_outcome options dir fileNames content Hparse arg Hdisc
                Hvalid) as Hrun.
  fold errors in Hrun.
  split; [|split; [|split; [done|split; [|split]]]].
  - intros outer. split; apply run_parses; auto.
  - rewrite Hrun. by destruct errors.
  - intros Hen e He.
    assert (e ∈ errors) as Hin.
    { apply Hfrom. exists EN_FILE.
      split; [done|]. split; [apply EN_EX_differ | done]. }
    exists errors. split; [|done]. rewrite Hrun.
    destruct errors; [by apply elem_of_nil in Hin | done].
  - intros Hnone. by rewrite Hrun, Hnone.
  - intros names Hnames Hex. rewrite Hrun in Hnames.
    destruct errors; [|done]. by injection Hnames as <-.
Qed.

End Aggregation.

Section MissingBase.
Context `{Collaborators}.

(** X26: with [checkPlaceholders] on and no base file discovered, the
    template index is the empty mapping, not [null], whatever the extra
    file holds; so, when no message with a placeholder span has a key
    that names a member of [Object.prototype], every message with a
    placeholder span, in any file that is validated, is reported as a
    missed placeholder and the run raises the aggregate error. *)
Theorem missing_base_reports_every_placeholder
    (options : Options) (dir : jsstring) (arg : option CallOptions)
    (fileNames : list jsstring) (content : jsstring -> TranslationSet)
    (fileName msgKey s : jsstring) :
  checkPlaceholders options = true ->
  translationFileNames dir (languages options) = inr fileNames ->
  EN_FILE ∉ fileNames ->
  (forall f, f ∈ fileNames -> parseProperties dir f = inr (content f)) ->
  (forall f k m, f ∈ fileNames -> f ≠ EX_FILE ->
     (k, VString m) ∈ content f -> jsMatch m <> None ->
     inherited k = false) ->
  fileName ∈ fileNames -> fileName ≠ EX_FILE ->
  NoDup (content fileName).*1 ->
  (msgKey, VString s) ∈ content fileName ->
  jsMatch s <> None ->
  (exists ex,
     outcome (loadTemplates options dir fileNames)
     = Return ([], ex, Some ∅)) /\
  (exists own,
     indexOnto [] ∅ (content fileName) !! msgKey = Some (Tokens own) /\
     own <> []) /\
  exists errors,
    outcome (checkTranslations (Some options) dir arg)
    = Throw (TranslationException
               (str "Error trying to compile translations")
               errors fileNames) /\
    missedPlaceholder (fileLanguage fileName) msgKey ∈ errors.
Proof.
  intros Hcp Hdisc Hen Hparse Hplain Hin Hne Hnd Hentry Hm.
  assert (templateOf options fileNames content = Some ∅) as Htpl.
  { unfold templateOf. rewrite Hcp.
    by rewrite (bool_decide_eq_false_2 _ Hen). }
  destruct (own_index_lookup _ _ _ Hnd Hentry Hm) as [Hown Hne'].
  split; [|split; [by eauto|]].
  { eexists. rewrite (loadTemplates_outcome options dir fileNames content)
      by done.
    by rewrite Htpl, Hcp, (bool_decide_eq_false_2 _ Hen). }
  assert (forall f, f ∈ fileNames -> f ≠ EX_FILE ->
            exists t fs,
              validation options fileNames content f = (t, Return fs))
    as Hvalid.
  { intros f Hf Hfne. unfold validation. rewrite Htpl.
    apply checkFileTranslations_empty_template.
    intros k m. by apply Hplain. }
  assert (missedPlaceholder (fileLanguage fileName) msgKey
          ∈ allFindings options fileNames content) as Hmissed.
  { unfold allFindings, validated. apply elem_of_concat_map.
    exists fileName. split; [by apply list_elem_of_filter|].
    destruct (Hvalid fileName Hin Hne) as (t & fs & Hrun).
    rewrite (found_Return _ _ _ Hrun). unfold validation in Hrun.
    rewrite Htpl in Hrun.
    apply checkFileTranslations_entries in Hrun as [t' Hrun].
    eapply pushEach_collects; [exact Hrun | exact Hentry | | left].
    rewrite (checkEntry_placeholders _ _ _ _ _ _ _ _ Hm Hown).
    rewrite (readIndex_absent ∅ msgKey) by apply lookup_empty.
    by rewrite (Hplain fileName msgKey s). }
  rewrite (run_outcome options dir fileNames content Hparse arg Hdisc Hvalid).
  destruct (allFindings options fileNames content) as [|e errors] eqn:Hall.
  - by apply elem_of_nil in Hmissed.
  - by exists (e :: errors).
Qed.

End MissingBase.

(** C10: a message with a placeholder that is not reported.  The
    directory holds only [messages-es.properties], with
    [toString = Hola {{name}}], and placeholders are checked: the
    template index is the empty mapping and the file's own index has the
    token [name] for the key, but line 125 reads, on the empty index, the
    function that it inherits under the name [toString]; line 126 takes
    it for the template's placeholders, [includes] is called on it, and
    the run is rejected with a [TypeError] instead of the aggregate error
    with the missed-placeholder finding. *)
Theorem missing_base_raises_at_inherited_key :
  let dir := str "inherited" in
  let es := str "messages-es.properties" in
  @translationFileNames Fixture.world dir None = inr [es] /\
  (EN_FILE ∉ [es]) /\
  outcome (@loadTemplates Fixture.world Demo.allOn dir [es])
  = Return ([], [], Some ∅) /\
  indexOnto [] ∅ (Fixture.contentOf dir es) !! str "toString"
  = Some (Tokens [str "name"]) /\
  (∅ : PlaceholderIndex) !! str "toString" = None /\
  outcome (@checkTranslations Fixture.world (Some Demo.allOn) dir None)
  = Throw TypeError.
Proof.
  intros dir es. split; [reflexivity|]. split; [by_evaluation|].
  split; [by vm_compute|]. split; [by vm_compute|].
  split; [apply lookup_empty | by vm_compute].
Qed.

(** ** The [options] identifier *)

(** Without a binding of [options] in scope every call is rejected with a
    [ReferenceError], before any collaborator is called. *)
Lemma unbound_options_raise `{Collaborators} dir arg :
  checkTranslations None dir arg = throw (ReferenceError (str "options")).
Proof. reflexivity. Qed.

(** With a binding in scope, the argument of the call changes nothing. *)
Lemma call_options_are_ignored `{Collaborators} outer dir arg arg' :
  checkTranslations outer dir arg = checkTranslations outer dir arg'.
Proof. reflexivity. Qed.

(** C1 at the failing input: the directory [ok] has no defect, and the
    call passes [{checkEmpties: false}].  With [options] unbound, as in
    the module, the call is rejected with a [ReferenceError] instead of
    returning the three file names; with an [options] object in scope
    that has every check on, the directory [bad] is still reported for
    its empty message, although the call turned that check off. *)
Lemma call_options_not_honored :
  let arg := Some {| argLanguages := None; argCheckPlaceholders := None;
                     argCheckMessageformat := None;
                     argCheckEmpties := Some false |} in
  @checkTranslations Demo.world None (str "ok") arg
  = throw (ReferenceError (str "options")) /\
  exists errors names,
    outcome (@checkTranslations Demo.world (Some Demo.allOn) (str "bad") arg)
    = Throw (TranslationException
               (str "Error trying to compile translations") errors names) /\
    emptyMessage (str "es") (str "count") ∈ errors.
Proof.
  intros arg. split; [reflexivity|].
  eexists _, _. split; [by vm_compute|]. by_evaluation.
Qed.

(** ** The theorems at work on the concrete world *)

Lemma findings_are_aggregated_witness :
  let names := [EN_FILE; str "messages-es.properties"] in
  exists errors,
    outcome (@checkTranslations Demo.world (Some Demo.allOn) (str "bad") None)
    = Throw (TranslationException
               (str "Error trying to compile translations") errors names) /\
    List.map error errors
    = [WrongMessageformat; WrongPlaceholder; MissedPlaceholder; EmptyMessage].
Proof.
  intros names.
  destruct (@findings_are_aggregated Demo.world Demo.allOn (str "bad") None
              names (Demo.contentOf (str "bad")))
    as (_ & _ & Hrun).
  - reflexivity.
  - intros f Hf. each_member f Hf ltac:(by vm_compute).
  - intros f Hf _. apply returned_true.
    each_member f Hf ltac:(by vm_compute).
  - exists (@allFindings Demo.world Demo.allOn names
              (Demo.contentOf (str "bad"))).
    split; [|by vm_compute].
    etransitivity; [exact Hrun|]. by vm_compute.
Defined.

Lemma demo_discovery_lists_once langs names :
  @translationFileNames Demo.world (str "ok") langs = inr names ->
  NoDup names.
Proof.
  cbn [translationFileNames Demo.world]. unfold Demo.discover.
  assert (Demo.assoc (str "ok") Demo.disk = Some Demo.okDir) as ->
    by reflexivity.
  intros Hd.
  apply (f_equal (fun r => match r with inr n => n | inl _ => [] end)) in Hd.
  cbv beta iota in Hd. subst names.
  apply NoDup_ListNoDup, List.NoDup_filter, NoDup_ListNoDup. by_evaluation.
Defined.

Lemma demo_discovery_NoDup dir files langs names :
  Demo.assoc dir Demo.disk = Some files ->
  NoDup (List.map fst files) ->
  @translationFileNames Demo.world dir langs = inr names ->
  NoDup names.
Proof.
  cbn [translationFileNames Demo.world]. unfold Demo.discover.
  intros -> Hnd [= <-].
  by apply NoDup_ListNoDup, List.NoDup_filter, NoDup_ListNoDup.
Qed.

Lemma base_and_extra_files_witness :
  let run :=
    @checkTranslations Demo.world (Some Demo.allOn) (str "ok") None in
  let bad :=
    @checkTranslations Demo.world (Some Demo.allOn) (str "bad") None in
  (parses (str "ok") EN_FILE (trace run) <= 1)%nat /\
  (parses (str "ok") EX_FILE (trace run) <= 1)%nat /\
  outcome run = Return [EN_FILE; str "messages-es.properties"; EX_FILE] /\
  exists errs,
    outcome bad
    = Throw (TranslationException
               (str "Error trying to compile translations") errs
               [EN_FILE; str "messages-es.properties"]) /\
    wrongMessageformat (str "en") (str "plural")
      (str "{count, plural, one{1} other{}")
      {| errMessage := str "unbalanced braces" |} ∈ errs.
Proof.
  intros run bad.
  destruct (@base_and_extra_files Demo.world Demo.allOn (str "ok") None
              [EN_FILE; str "messages-es.properties"; EX_FILE]
              (Demo.contentOf (str "ok")))
    as (Hparses & _ & _ & _ & Hok & _).
  - apply demo_discovery_lists_once.
  - reflexivity.
  - intros f Hf. each_member f Hf ltac:(by vm_compute).
  - intros f Hf _. apply returned_true.
    each_member f Hf ltac:(by vm_compute).
  - destruct (@base_and_extra_files Demo.world Demo.allOn (str "bad") None
                [EN_FILE; str "messages-es.properties"]
                (Demo.contentOf (str "bad")))
      as (_ & _ & _ & Hbase & _).
    + intros langs names.
      apply (demo_discovery_NoDup (str "bad") Demo.badDir);
        [reflexivity | by_evaluation].
    + reflexivity.
    + intros f Hf. each_member f Hf ltac:(by vm_compute).
    + intros f Hf _. apply returned_true.
      each_member f Hf ltac:(by vm_compute).
    + destruct (Hparses (Some Demo.allOn)) as [Hen Hex].
      split; [exact Hen|]. split; [exact Hex|].
      split; [apply Hok; by vm_compute|].
      apply Hbase; by_evaluation.
Defined.

Lemma missing_base_reports_every_placeholder_witness :
  exists errors,
    outcome (@checkTranslations Demo.world (Some Demo.allOn) (str "nobase")
               None)
    = Throw (TranslationException
               (str "Error trying to compile translations") errors
               [str "messages-es.properties"]) /\
    missedPlaceholder (str "es") (str "farewell") ∈ errors.
Proof.
  destruct (@missing_base_reports_every_placeholder Demo.world Demo.allOn
              (str "nobase") None [str "messages-es.properties"]
              (Demo.contentOf (str "nobase"))
              (str "messages-es.properties") (str "farewell")
              (str "Adios {{name}}"))
    as (_ & _ & errors & Hrun & Hin).
  - reflexivity.
  - reflexivity.
  - by_evaluation.
  - intros f Hf. each_member f Hf ltac:(by vm_compute).
  - intros f k m Hf _ Hk _.
    assert (Forall (fun f => Forall (fun entry => inherited entry.1 = false)
                                (Demo.contentOf (str "nobase") f))
              [str "messages-es.properties"]) as Hall by by_evaluation.
    rewrite Forall_forall in Hall. specialize (Hall f Hf).
    rewrite Forall_forall in Hall. exact (Hall (k, VString m) Hk).
  - by_evaluation.
  - by vm_compute.
  - by_evaluation.
  - by_evaluation.
  - by vm_compute.
  - exists errors. split; [exact Hrun | exact Hin].
Defined.

(** ** The scenarios of the specification, run on the model *)

(** Scenario A: a placeholder that the base does not have for the key. *)
Example scenario_wrong_placeholder :
  List.map (fun f => (error f, key f))
    (found (@checkFileTranslations Demo.world
              [(str "greeting", VString (str "Hola {{nombre}}"))]
              (str "messages-es.properties")
              (Some (indexOnto [] ∅
                       [(str "greeting", VString (str "Hello {{name}}"))]))
              true true))
  = [(WrongPlaceholder, str "greeting")].
Proof. by vm_compute. Qed.

(** Scenario B: a placeholder where the base has none. *)
Example scenario_missed_placeholder :
  List.map (fun f => (error f, key f))
    (found (@checkFileTranslations Demo.world
              [(str "farewell", VString (str "Adios {{name}}"))]
              (str "messages-es.properties")
              (Some (indexOnto [] ∅
                       [(str "farewell", VString (str "Bye"))]))
              true true))
  = [(MissedPlaceholder, str "farewell")].
Proof. by vm_compute. Qed.

(** Scenario C: an empty message, with the check on and off. *)
Example scenario_empty_message :
  let run checkEmpties :=
    List.map (fun f => (error f, key f))
      (found (@checkFileTranslations Demo.world
                [(str "count", VString [])] (str "messages-es.properties")
                (Some ∅) true checkEmpties)) in
  run true = [(EmptyMessage, str "count")] /\ run false = [].
Proof. by vm_compute. Qed.

(** The same tokens in another order, with spaces and a section marker. *)
Example scenario_same_tokens :
  found (@checkFileTranslations Demo.world
           [(str "who", VString (str "{{#b}}x{{/b}} {{ a }}"))]
           (str "messages-es.properties")
           (Some (indexOnto [] ∅
                    [(str "who", VString (str "{{a}} and {{b}}"))]))
           true true)
  = [].
Proof. by vm_compute. Qed.

(** Scenario E: a directory without defects is returned in discovery
    order. *)
Example scenario_success :
  outcome (@checkTranslations Demo.world (Some Demo.allOn) (str "ok") None)
  = Return [EN_FILE; str "messages-es.properties"; EX_FILE].
Proof. by vm_compute. Qed.

(** * Further properties *)

(** ** The two regular expressions *)

Lemma class_kept_chars c :
  inMustacheClass c = true -> inReplacerClass c = false ->
  isWord c = true \/ c = 46 \/ c = 124.
Proof.
  unfold inMustacheClass, inReplacerClass.
  destruct (isSpace c), (isWord c); cbn [orb];
    rewrite ?orb_true_r; try discriminate; auto.
  destruct (c =? 46) eqn:Hdot; [apply N.eqb_eq in Hdot; auto|].
  destruct (c =? 124) eqn:Hbar; [apply N.eqb_eq in Hbar; auto|].
  destruct (c =? LBRACE), (c =? RBRACE), (c =? 35), (c =? 94), (c =? 47),
    (c =? 39); cbn [orb]; discriminate.
Qed.

(** X1: an extracted token holds only word characters, dots and vertical
    bars: no brace, no white space and none of [# ^ / ']. *)
Theorem tokens_are_clean (msg : jsstring) (tokens : list jsstring)
    (t : jsstring) (c : N) :
  extractPlaceholdersKeysFromMsg (VString msg) = ret tokens ->
  t ∈ tokens -> c ∈ t ->
  isWord c = true \/ c = 46 \/ c = 124.
Proof.
  intros [= <-] (body & Hbody & ->)%placeholderKeys_token Hc.
  unfold jsReplace in Hc.
  apply list_elem_of_In, List.filter_In in Hc as [Hc Hkeep].
  apply negb_true_iff in Hkeep. apply class_kept_chars; [|done].
  rewrite Forall_forall in Hbody. by apply Hbody, list_elem_of_In.
Qed.

Lemma tokens_are_clean_witness :
  isWord 97 = true \/ (97 : N) = 46 \/ (97 : N) = 124.
Proof.
  apply (tokens_are_clean (str "{{ #a.b }}") [str "a.b"] (str "a.b") 97).
  - reflexivity.
  - by_evaluation.
  - by_evaluation.
Defined.

Lemma matchAllFrom_found fuel pre body post :
  (length (pre ++ LBRACE :: LBRACE :: body ++ RBRACE :: RBRACE :: post)
   <= fuel)%nat ->
  body <> [] -> Forall (fun c => inMustacheClass c = true) body ->
  matchAllFrom fuel (pre ++ LBRACE :: LBRACE :: body ++ RBRACE :: RBRACE :: post)
  <> [].
Proof.
  revert fuel. induction pre as [|c pre IH]; intros fuel Hfuel Hne Hall.
  - destruct fuel as [|fuel]; [simpl in Hfuel; lia|].
    cbn [app matchAllFrom].
    assert (matchMustacheAt
              (LBRACE :: LBRACE :: body ++ RBRACE :: RBRACE :: post)
            = Some (LBRACE :: LBRACE :: body ++ [RBRACE; RBRACE], post)) as ->.
    { unfold matchMustacheAt.
      assert (eat2 LBRACE
                (LBRACE :: LBRACE :: body ++ RBRACE :: RBRACE :: post)
              = Some (body ++ RBRACE :: RBRACE :: post)) as ->
        by by apply eat2_Some.
      rewrite (classRun_app body (RBRACE :: RBRACE :: post)) by done.
      destruct body as [|b body]; [done|].
      by assert (eat2 RBRACE (RBRACE :: RBRACE :: post) = Some post) as ->
        by by apply eat2_Some. }
    done.
  - destruct fuel as [|fuel]; [simpl in Hfuel; lia|].
    cbn [app matchAllFrom].
    destruct (matchMustacheAt _) as [[m rest]|]; [done|].
    apply IH; [simpl in Hfuel; lia | done | done].
Qed.

Lemma matchAllFrom_nonempty fuel s :
  matchAllFrom fuel s <> [] ->
  exists pre body post,
    body <> [] /\ Forall (fun c => inMustacheClass c = true) body /\
    s = pre ++ LBRACE :: LBRACE :: body ++ RBRACE :: RBRACE :: post.
Proof.
  revert s. induction fuel as [|fuel IH]; intros s; [done|].
  destruct s as [|c s]; [done|]. cbn [matchAllFrom].
  destruct (matchMustacheAt (c :: s)) as [[m rest]|] eqn:Hm.
  - intros _. apply matchMustacheAt_Some in Hm as (body & ? & ? & -> & ->).
    exists [], body, rest. repeat split; try done.
    cbn [app]. by rewrite <- app_assoc.
  - intros (pre & body & post & ? & ? & ->)%IH.
    by exists (c :: pre), body, post.
Qed.

(** X2: the matcher finds a span in a message exactly when the message
    contains, somewhere, two opening braces, a non-empty run of characters
    of the class and two closing braces. *)
Theorem has_span_iff (s : jsstring) :
  jsMatch s <> None <->
  exists pre body post,
    body <> [] /\ Forall (fun c => inMustacheClass c = true) body /\
    s = pre ++ LBRACE :: LBRACE :: body ++ RBRACE :: RBRACE :: post.
Proof.
  assert (jsMatch s <> None <-> matchAll s <> []) as ->.
  { unfold jsMatch. by destruct (matchAll s). }
  split; [apply matchAllFrom_nonempty|].
  intros (pre & body & post & Hne & Hall & ->). by apply matchAllFrom_found.
Qed.

Lemma matchAllFrom_layout fuel s :
  exists gaps rest,
    length gaps = length (matchAllFrom fuel s) /\
    s = concat (zip_with app gaps (matchAllFrom fuel s)) ++ rest.
Proof.
  revert s. induction fuel as [|fuel IH]; intros s.
  { by exists [], s. }
  destruct s as [|c s]; [by exists [], []|]. cbn [matchAllFrom].
  destruct (matchMustacheAt (c :: s)) as [[m after]|] eqn:Hm.
  - apply matchMustacheAt_Some in Hm as (body & _ & _ & _ & ->).
    destruct (IH after) as (gaps & rest & Hlen & Hafter).
    exists ([] :: gaps), rest. split; [simpl; by rewrite Hlen|].
    cbn [zip_with concat app]. by rewrite <- app_assoc, <- Hafter.
  - destruct (IH s) as (gaps & rest & Hlen & Hs).
    destruct (matchAllFrom fuel s) as [|m ms].
    + exists [], (c :: rest). split; [done|].
      destruct gaps; [|done]. simpl in Hs. by rewrite Hs.
    + destruct gaps as [|g gaps]; [done|].
      exists ((c :: g) :: gaps), rest. split; [done|].
      cbn [zip_with concat app] in *. by rewrite Hs.
Qed.

(** X3: the spans the matcher returns are substrings of the message that
    do not overlap and come in their order of appearance: the message is
    the returned spans, each after a gap, followed by a rest. *)
Theorem spans_in_order (s : jsstring) :
  exists gaps rest,
    length gaps = length (matchAll s) /\
    s = concat (zip_with app gaps (matchAll s)) ++ rest.
Proof. apply matchAllFrom_layout. Qed.

(** ** What the index builder stores *)

Lemma uniq_NoDup l : NoDup (uniq l).
Proof.
  induction l as [|x l IH]; [constructor|]. cbn [uniq].
  apply NoDup_cons. split.
  - rewrite list_elem_of_In, List.filter_In, bool_decide_eq_true.
    by intros [_ ?].
  - by apply NoDup_ListNoDup, List.NoDup_filter, NoDup_ListNoDup.
Qed.

Lemma tokensOf_elem v t :
  t ∈ tokensOf v <-> exists s, v = VString s /\ t ∈ placeholderKeys s.
Proof.
  destruct v as [s|b]; cbn [tokensOf].
  - split; [by exists s | by intros (? & [= <-] & ?)].
  - split; [by intros ?%elem_of_nil | by intros (? & [=] & _)].
Qed.

(** X4: for a key of the primary set, a token array stored in the index
    has no duplicate and holds exactly the tokens of the primary message
    and those of the secondary set's message for the same key, when these
    are strings. *)
Theorem index_merges_both_sets (translations extra : TranslationSet)
    (result : PlaceholderIndex) (msgKey : jsstring) (msgSrc : Value)
    (l : list jsstring) :
  NoDup translations.*1 ->
  (msgKey, msgSrc) ∈ translations ->
  extractPlaceholdersFromTranslations translations extra = ret result ->
  result !! msgKey = Some (Tokens l) ->
  NoDup l /\
  forall t,
    t ∈ l <->
    (exists s, msgSrc = VString s /\ t ∈ placeholderKeys s) \/
    (exists s, getProp extra msgKey = VString s /\ t ∈ placeholderKeys s).
Proof.
  intros Hnd Hin. rewrite extractPlaceholdersFromTranslations_ret.
  intros [= <-]. rewrite (indexOnto_lookup _ _ _ _ msgSrc) by done.
  rewrite lookup_empty. unfold entryOf.
  destruct (tokensOf msgSrc ++ tokensOf (getProp extra msgKey))
    as [|x both] eqn:Hboth.
  { by destruct (truthy (getProp extra msgKey)). }
  intros Hl. assert (l = uniq (x :: both)) as -> by congruence.
  split; [apply uniq_NoDup|].
  intros t. by rewrite uniq_elem, <- Hboth, elem_of_app, !tokensOf_elem.
Qed.

Lemma index_merges_both_sets_witness :
  let l := [str "name"; str "title"] in
  NoDup l /\
  forall t,
    t ∈ l <->
    (exists s, VString (str "Hi {{name}} {{ name }}") = VString s /\
               t ∈ placeholderKeys s) \/
    (exists s, getProp [(str "hi", VString (str "{{title}} {{name}}"))]
                 (str "hi") = VString s /\
               t ∈ placeholderKeys s).
Proof.
  intros l.
  apply (index_merges_both_sets
           [(str "hi", VString (str "Hi {{name}} {{ name }}"))]
           [(str "hi", VString (str "{{title}} {{name}}"))]
           (indexOnto [(str "hi", VString (str "{{title}} {{name}}"))] ∅
              [(str "hi", VString (str "Hi {{name}} {{ name }}"))])
           (str "hi")).
  - by_evaluation.
  - by_evaluation.
  - apply extractPlaceholdersFromTranslations_ret.
  - by vm_compute.
Defined.

(** X5: the index only has keys of the primary set: a key that only the
    secondary set has is not stored, whatever its value. *)
Theorem index_keys_come_from_primary (translations extra : TranslationSet)
    (result : PlaceholderIndex) (msgKey : jsstring) :
  extractPlaceholdersFromTranslations translations extra = ret result ->
  msgKey ∉ translations.*1 ->
  result !! msgKey = None.
Proof.
  rewrite extractPlaceholdersFromTranslations_ret. intros [= <-] Hout.
  by rewrite indexOnto_lookup_notin.
Qed.

Lemma index_keys_come_from_primary_witness :
  indexOnto [(str "extra.only", VString (str "{{a}}"))] ∅
    [(str "hi", VString (str "Hi"))] !! str "extra.only" = None.
Proof.
  apply (index_keys_come_from_primary
           [(str "hi", VString (str "Hi"))]
           [(str "extra.only", VString (str "{{a}}"))]).
  - apply extractPlaceholdersFromTranslations_ret.
  - by_evaluation.
Defined.

Lemma entryOf_own msgKey msgSrc :
  entryOf [] msgKey msgSrc
  = match msgSrc with
    | VString s =>
        if bool_decide (jsMatch s = None) then readIndex ∅ msgKey
        else Some (Tokens (uniq (placeholderKeys s)))
    | VOther _ => readIndex ∅ msgKey
    end.
Proof.
  assert (forall k,
            (if truthy (inheritedValue k)
             then Some (Verbatim (inheritedValue k)) else None)
            = readIndex ∅ k) as Hread.
  { intros k. unfold readIndex, inheritedValue. rewrite lookup_empty.
    by destruct (inherited k). }
  unfold entryOf. cbn [getProp].
  rewrite tokensOf_inheritedValue, app_nil_r, Hread.
  destruct msgSrc as [s|b]; [|done]. cbn [tokensOf].
  case_bool_decide as Hm.
  - apply placeholderKeys_nil in Hm. by rewrite Hm.
  - rewrite placeholderKeys_nil in Hm. by destruct (placeholderKeys s).
Qed.

(** X6: the index a file gets for itself (no secondary set).  A key whose
    message is a string with a placeholder span has the non-empty array
    of the message's deduplicated tokens; any other key of the file has
    no entry, unless it names a member of [Object.prototype]: line 179
    then reads that member on the default [{}] and line 180 stores it. *)
Theorem own_index_holds_messages_with_spans (translations : TranslationSet)
    (own : PlaceholderIndex) (msgKey : jsstring) :
  NoDup translations.*1 ->
  extractPlaceholdersFromTranslations translations [] = ret own ->
  (is_Some (own !! msgKey) <->
   exists v, (msgKey, v) ∈ translations /\
             ((exists s, v = VString s /\ jsMatch s <> None) \/
              inherited msgKey = true)) /\
  (forall e,
     own !! msgKey = Some e ->
     (exists s, (msgKey, VString s) ∈ translations /\ jsMatch s <> None /\
                e = Tokens (uniq (placeholderKeys s)) /\
                uniq (placeholderKeys s) <> []) \/
     (inherited msgKey = true /\ e = Verbatim (VOther true) /\
      exists v, (msgKey, v) ∈ translations /\
                forall s, v = VString s -> jsMatch s = None)).
Proof.
  intros Hnd. rewrite extractPlaceholdersFromTranslations_ret.
  intros [= <-].
  assert (forall v, (msgKey, v) ∈ translations ->
            indexOnto [] ∅ translations !! msgKey
            = match v with
              | VString s =>
                  if bool_decide (jsMatch s = None) then readIndex ∅ msgKey
                  else Some (Tokens (uniq (placeholderKeys s)))
              | VOther _ => readIndex ∅ msgKey
              end) as Hlook.
  { intros v Hin. rewrite (indexOnto_lookup _ _ _ _ v Hnd Hin), entryOf_own.
    rewrite lookup_empty.
    destruct v as [s|b]; [case_bool_decide|]; try done;
      by destruct (readIndex ∅ msgKey). }
  assert (readIndex ∅ msgKey
          = if inherited msgKey then Some (Verbatim (VOther true)) else None)
    as Hread by (apply readIndex_absent, lookup_empty).
  split; [split|].
  - intros [e [Hl|(v & Hin & He)]%indexOnto_lookup_Some].
    { by rewrite lookup_empty in Hl. }
    exists v. split; [done|]. rewrite entryOf_own, Hread in He.
    destruct v as [s|b].
    + case_bool_decide as Hm; [|left; by exists s].
      right. by destruct (inherited msgKey).
    + right. by destruct (inherited msgKey).
  - intros (v & Hin & Hv). rewrite (Hlook v Hin), Hread.
    destruct Hv as [(s & -> & Hm)| ->].
    + by rewrite bool_decide_eq_false_2.
    + destruct v as [s|b]; [case_bool_decide|]; by eexists.
  - intros e [Hl|(v & Hin & He)]%indexOnto_lookup_Some.
    { by rewrite lookup_empty in Hl. }
    rewrite entryOf_own, Hread in He. destruct v as [s|b].
    + case_bool_decide as Hm.
      * right. destruct (inherited msgKey); [|done]. injection He as <-.
        repeat split; try done. exists (VString s). split; [done|].
        by intros ? [= <-].
      * left. injection He as <-. exists s. repeat split; try done.
        apply uniq_nonempty. by rewrite <- placeholderKeys_nil.
    + right. destruct (inherited msgKey); [|done]. injection He as <-.
      repeat split; try done. exists (VOther b). by split.
Qed.

Lemma own_index_holds_messages_with_spans_witness :
  let translations := [(str "a", VString (str "{{x}} {{x}}"));
                       (str "b", VString (str "plain"));
                       (str "constructor", VString (str "plain"))] in
  let own := indexOnto [] ∅ translations in
  (is_Some (own !! str "constructor") <->
   exists v, (str "constructor", v) ∈ translations /\
             ((exists s, v = VString s /\ jsMatch s <> None) \/
              inherited (str "constructor") = true)) /\
  (forall e,
     own !! str "constructor" = Some e ->
     (exists s, (str "constructor", VString s) ∈ translations /\
                jsMatch s <> None /\
                e = Tokens (uniq (placeholderKeys s)) /\
                uniq (placeholderKeys s) <> []) \/
     (inherited (str "constructor") = true /\ e = Verbatim (VOther true) /\
      exists v, (str "constructor", v) ∈ translations /\
                forall s, v = VString s -> jsMatch s = None)).
Proof.
  intros translations own.
  apply (own_index_holds_messages_with_spans translations
           (indexOnto [] ∅ translations) (str "constructor")).
  - by_evaluation.
  - apply extractPlaceholdersFromTranslations_ret.
Defined.

(** ** What the file validator reports, entry by entry *)

Lemma checkEntry_falsy code mf own template ce msgKey msgSrc :
  truthy msgSrc = false ->
  checkEntry code mf own template ce (msgKey, msgSrc)
  = ret (if ce then [emptyMessage code msgKey] else []).
Proof. intros Hv. unfold checkEntry. by rewrite Hv. Qed.

Lemma checkEntry_format code mf own template ce msgKey s :
  s <> [] -> jsMatch s = None ->
  checkEntry code mf own template ce (msgKey, VString s)
  = checkFormatOf code mf msgKey s.
Proof.
  intros Hs Hm. unfold checkEntry. rewrite Hm. by destruct s.
Qed.

(** A comparison that answers [false] compared against an own entry of
    the index: against an inherited member it raises, or compares
    nothing. *)
Lemma every_false_own index k mine base t :
  whenTruthy (readIndex index k) = Some base ->
  every mine (includes base) = (t, Return false) ->
  whenTruthy (index !! k) = Some base.
Proof.
  unfold readIndex. destruct (index !! k) as [e|]; [done|].
  destruct (inherited k); [|done]. intros [= <-].
  destruct mine as [l|v]; [|done]. by destruct l.
Qed.

Lemma checkEntry_reason code mf own template ce translations entry t fs :
  entry ∈ translations ->
  checkEntry code mf own template ce entry = (t, Return fs) ->
  Forall (reason code mf template ce translations) fs.
Proof.
  destruct entry as [k v]. intros Hin.
  destruct (truthy v) eqn:Hv.
  2:{ rewrite checkEntry_falsy by done. intros [= <- <-].
      destruct ce eqn:Hce; repeat constructor.
      by eapply reason_empty. }
  destruct v as [s|b].
  2:{ simpl in Hv. subst b. intros [= <- <-]. constructor. }
  assert (s <> []) as Hs by by destruct s.
  destruct (jsMatch s) as [ms|] eqn:Hm.
  - unfold checkEntry. rewrite Hv, Hm. cbn [negb]. unfold checkPlaceholdersOf.
    destruct template as [index|].
    2:{ intros [= <- <-]. constructor. }
    destruct (whenTruthy (readIndex own k)) as [mine|].
    2:{ intros [= <- <-]. constructor. }
    destruct (whenTruthy (readIndex index k)) as [base|] eqn:Hbase.
    + intros (t1 & all & t2 & Hall & [= <- <-] & _)%bind_Return.
      destruct all; repeat constructor.
      eapply reason_wrong; eauto; [by rewrite Hm|].
      by eapply every_false_own.
    + intros [= <- <-]. repeat constructor.
      eapply reason_missed; eauto; [by rewrite Hm|].
      by apply whenTruthy_readIndex_None.
  - rewrite checkEntry_format by done. unfold checkFormatOf.
    destruct mf as [compiler|].
    2:{ intros [= <- <-]. constructor. }
    intros [= <- <-]. destruct (compile compiler s) as [e|] eqn:He;
      repeat constructor.
    by eapply reason_format.
Qed.

Lemma checkEntry_at_most_one code mf own template ce msgKey msgSrc t fs :
  checkEntry code mf own template ce (msgKey, msgSrc) = (t, Return fs) ->
  fs = [] \/ exists f, fs = [f] /\ key f = msgKey.
Proof.
  unfold checkEntry. destruct (negb (truthy msgSrc)).
  { intros [= <- <-]. destruct ce; [right|by left]. by eexists. }
  destruct msgSrc as [s|b]; [|intros [= <- <-]; by left].
  destruct (jsMatch s).
  - unfold checkPlaceholdersOf. destruct template as [index|];
      [|intros [= <- <-]; by left].
    destruct (whenTruthy (readIndex own msgKey)); [|intros [= <- <-]; by left].
    destruct (whenTruthy (readIndex index msgKey)).
    + intros (t1 & all & t2 & _ & [= <- <-] & _)%bind_Return.
      destruct all; [by left|right]. by eexists.
    + intros [= <- <-]. right. by eexists.
  - unfold checkFormatOf. destruct mf as [compiler|];
      [|intros [= <- <-]; by left].
    intros [= <- <-]. destruct (compile compiler s); [right|by left].
    by eexists.
Qed.

Lemma pushEach_trace_Return {A B} (f : A -> M (list B)) l t fs :
  pushEach f l = (t, Return fs) ->
  t = concat (List.map (fun x => trace (f x)) l).
Proof.
  revert t fs. induction l as [|x l IH]; intros t fs Hrun.
  - injection Hrun as <- <-. reflexivity.
  - apply pushEach_cons_Return in Hrun
      as (t1 & f1 & t2 & f2 & Hx & Hl & -> & ->).
    cbn [List.map concat]. by rewrite Hx, (IH _ _ Hl).
Qed.

Lemma checkEntry_trace_exact code mf own template ce entry :
  trace (checkEntry code mf own template ce entry)
  = match mf with
    | Some _ => List.map (EvCompile code) (formatChecked [entry])
    | None => []
    end.
Proof.
  destruct entry as [k v]. unfold formatChecked.
  cbn [flat_map snd]. rewrite app_nil_r.
  destruct (truthy v) eqn:Hv.
  2:{ rewrite checkEntry_falsy by done.
      destruct v as [s|b], mf; try done. by rewrite Hv. }
  destruct v as [s|b]; [|simpl in Hv; subst b; by destruct mf].
  assert (s <> []) as Hs by by destruct s.
  rewrite Hv. cbn [andb]. case_bool_decide as Hm.
  - rewrite checkEntry_format by done. by destruct mf.
  - unfold checkEntry. rewrite Hv. cbn [negb].
    destruct (jsMatch s); [|done].
    rewrite checkPlaceholdersOf_trace. by destruct mf.
Qed.

Lemma formatChecked_cons entry translations :
  formatChecked (entry :: translations)
  = formatChecked [entry] ++ formatChecked translations.
Proof. unfold formatChecked. cbn [flat_map]. by rewrite app_nil_r. Qed.

Lemma checkFileTranslations_reasons `{Collaborators} translations fileName
    template cm ce t fs :
  checkFileTranslations translations fileName template cm ce
  = (t, Return fs) ->
  Forall (reason (fileLanguage fileName) (compilerFor fileName cm)
            template ce translations) fs.
Proof.
  intros [t' Hrun]%checkFileTranslations_entries.
  apply Forall_forall. intros f Hf.
  destruct (pushEach_origin _ _ _ _ _ Hrun Hf) as (x & tx & fx & Hx & Hc & Hfx).
  pose proof (checkEntry_reason _ _ _ _ _ _ _ _ _ Hx Hc) as Hall.
  rewrite Forall_forall in Hall. by apply Hall.
Qed.

Section EntryByEntry.
Context `{Collaborators}.
Context (translations : TranslationSet) (fileName : jsstring)
        (template : option PlaceholderIndex) (cm ce : bool).

(** X7: every finding of a file has its reason in the file: an entry with
    a falsy value and [checkEmpties] on (empty-message); a string with a
    span, a template index, and no truthy template value for the key
    (missed-placeholder) or a truthy one (wrong-placeholder); or a
    non-empty string without a span that the compiler constructed for the
    file rejects with the error whose message the finding quotes
    (wrong-messageformat). *)
Theorem findings_have_reasons (t : list Event) (fs : list Finding) :
  checkFileTranslations translations fileName template cm ce
  = (t, Return fs) ->
  Forall (reason (fileLanguage fileName) (compilerFor fileName cm)
            template ce translations) fs.
Proof. apply checkFileTranslations_reasons. Qed.

(** X8: a key whose value is falsy (the empty string, or a falsy value
    that is not a string) gets exactly one empty-message finding when
    [checkEmpties] is on and no finding at all when it is off, whatever
    the template and the format check. *)
Theorem falsy_values_are_empty_messages (msgKey : jsstring) (msgSrc : Value)
    (t : list Event) (fs : list Finding) :
  NoDup translations.*1 ->
  (msgKey, msgSrc) ∈ translations ->
  truthy msgSrc = false ->
  checkFileTranslations translations fileName template cm ce
  = (t, Return fs) ->
  filter (fun f => key f = msgKey) fs
  = if ce then [emptyMessage (fileLanguage fileName) msgKey] else [].
Proof.
  intros Hnd Hin Hv [t' Hrun]%checkFileTranslations_entries.
  destruct (findings_of_key _ _ _ _ _ _ _ _ _ _ Hnd Hin Hrun) as [tk Hk].
  rewrite checkEntry_falsy in Hk by done. by injection Hk as _ <-.
Qed.

(** X9: a key whose value is a non-empty string without a span gets one
    wrong-messageformat finding, quoting the key, the message and the
    compiler's error message, exactly when the format check is on, a
    compiler could be constructed for the file's language and it rejects
    the message; otherwise the key gets no finding. *)
Theorem format_findings_per_key (msgKey s : jsstring)
    (t : list Event) (fs : list Finding) :
  NoDup translations.*1 ->
  (msgKey, VString s) ∈ translations ->
  s <> [] -> jsMatch s = None ->
  checkFileTranslations translations fileName template cm ce
  = (t, Return fs) ->
  filter (fun f => key f = msgKey) fs
  = match compilerFor fileName cm with
    | Some compiler =>
        match compile compiler s with
        | Some e => [wrongMessageformat (fileLanguage fileName) msgKey s e]
        | None => []
        end
    | None => []
    end.
Proof.
  intros Hnd Hin Hs Hm [t' Hrun]%checkFileTranslations_entries.
  destruct (findings_of_key _ _ _ _ _ _ _ _ _ _ Hnd Hin Hrun) as [tk Hk].
  rewrite checkEntry_format in Hk by done. unfold checkFormatOf in Hk.
  destruct (compilerFor fileName cm) as [compiler|];
    by injection Hk as _ <-.
Qed.

(** X10: a truthy value that is not a string gets no finding, with every
    check on. *)
Theorem truthy_nonstrings_are_skipped (msgKey : jsstring)
    (t : list Event) (fs : list Finding) :
  NoDup translations.*1 ->
  (msgKey, VOther true) ∈ translations ->
  checkFileTranslations translations fileName template cm ce
  = (t, Return fs) ->
  filter (fun f => key f = msgKey) fs = [].
Proof.
  intros Hnd Hin [t' Hrun]%checkFileTranslations_entries.
  destruct (findings_of_key _ _ _ _ _ _ _ _ _ _ Hnd Hin Hrun) as [tk Hk].
  by injection Hk as _ <-.
Qed.

(** X11: the findings of a file follow its entries: their keys are a
    subsequence of the file's keys, so there is at most one finding per
    entry and the order of the entries is kept. *)
Theorem findings_follow_entries (t : list Event) (fs : list Finding) :
  checkFileTranslations translations fileName template cm ce
  = (t, Return fs) ->
  key <$> fs `sublist_of` translations.*1 /\
  (NoDup translations.*1 -> NoDup (key <$> fs)).
Proof.
  intros [t' Hrun]%checkFileTranslations_entries.
  assert (key <$> fs `sublist_of` translations.*1) as Hsub.
  { clear t. revert t' fs Hrun.
    generalize (indexOnto [] ∅ translations) as own.
    induction translations as [|[k v] ts IH]; intros own t' fs Hrun.
    - injection Hrun as <- <-. constructor.
    - apply pushEach_cons_Return in Hrun
        as (t1 & f1 & t2 & f2 & Hhead & Htail & -> & ->).
      specialize (IH _ _ _ Htail). rewrite fmap_app. cbn [fmap list_fmap fst].
      apply checkEntry_at_most_one in Hhead as [->|(f & -> & <-)].
      + by apply sublist_cons.
      + by apply sublist_skip. }
  split; [done|]. intros Hnd. by eapply sublist_NoDup.
Qed.

(** X12: the calls of a file validation that returns are, in this order,
    the construction of the compiler when the format check is on, and,
    when that gave a compiler, one compilation of each non-empty string
    message without a span, in the order of the entries. *)
Theorem calls_in_entry_order (t : list Event) (fs : list Finding) :
  checkFileTranslations translations fileName template cm ce
  = (t, Return fs) ->
  t = (if cm then [EvNewMessageFormat (fileLanguage fileName)] else [])
      ++ match compilerFor fileName cm with
         | Some _ =>
             List.map (EvCompile (fileLanguage fileName))
               (formatChecked translations)
         | None => []
         end.
Proof.
  rewrite checkFileTranslations_eq.
  intros (t1 & mf & t2 & Hmf & Hrun & ->)%bind_Return.
  assert (mf = compilerFor fileName cm /\
          t1 = if cm then [EvNewMessageFormat (fileLanguage fileName)]
               else []) as [-> ->].
  { unfold makeCompiler, compilerFor in *.
    destruct cm; by injection Hmf as <- <-. }
  f_equal. apply pushEach_trace_Return in Hrun as ->.
  generalize (indexOnto [] ∅ translations) as own. intros own.
  induction translations as [|entry ts IH]; [by destruct compilerFor|].
  cbn [List.map concat]. rewrite IH, checkEntry_trace_exact.
  rewrite (formatChecked_cons entry ts).
  destruct (compilerFor fileName cm); [|done]. by rewrite List.map_app.
Qed.

End EntryByEntry.

(** ** When the file validator raises *)

Lemma isPrefix_spec p s : isPrefix p s = true <-> exists b, s = p ++ b.
Proof.
  revert s. induction p as [|a p IH]; intros s; cbn [isPrefix].
  - split; [by exists s | done].
  - destruct s as [|c s].
    + split; [done | by intros [b [=]]].
    + rewrite andb_true_iff, N.eqb_eq, IH. split.
      * intros [-> [b ->]]. by exists b.
      * intros [b [= -> ->]]. split; [done | by exists b].
Qed.

(** [s.includes(p)] holds exactly when [p] is a substring of [s]. *)
Lemma isInfix_spec p s : isInfix p s = true <-> exists a b, s = a ++ p ++ b.
Proof.
  induction s as [|c s IH]; cbn [isInfix]; rewrite orb_true_iff, isPrefix_spec.
  - split.
    + intros [[b ->]|[=]]. by exists [], b.
    + intros (a & b & Hs). left. exists b.
      destruct a; [done | discriminate].
  - rewrite IH. split.
    + intros [[b ->]|(a & b & ->)]; [by exists [], b | by exists (c :: a), b].
    + intros ([|c' a] & b & Hs).
      * left. by exists b.
      * right. injection Hs as -> ->. by exists a, b.
Qed.

Lemma everyOf_verbatim_string base l :
  everyOf (includes (Verbatim (VString base))) l
  = ret (forallb (fun el => isInfix el base) l).
Proof.
  induction l as [|el l IH]; [done|]. cbn [everyOf includes forallb].
  rewrite bind_ret. by destruct (isInfix el base).
Qed.

Lemma everyOf_scalar b el l :
  everyOf (includes (Verbatim (VOther b))) (el :: l) = throw TypeError.
Proof. reflexivity. Qed.

Lemma everyOf_includes_Throw base l e :
  outcome (everyOf (includes base) l) = Throw e ->
  e = TypeError /\ exists b, base = Verbatim (VOther b).
Proof.
  destruct base as [toks|[s|b]].
  - by rewrite everyOf_tokens.
  - by rewrite everyOf_verbatim_string.
  - destruct l as [|el l]; [done|]. intros [= <-]. by eauto.
Qed.

Lemma whenTruthy_Some x e :
  whenTruthy x = Some e ->
  x = Some e /\ forall v, e = Verbatim v -> truthy v = true.
Proof.
  destruct x as [[l|v]|]; cbn [whenTruthy]; [| |done].
  - intros [= <-]. by split.
  - destruct (truthy v) eqn:Hv; [|done]. intros [= <-].
    split; [done|]. by intros ? [= <-].
Qed.

(** The only entries of a file's own index that are no token arrays are
    inherited members, and so are the reads that find no entry. *)
Lemma own_read_Verbatim translations msgKey w :
  readIndex (indexOnto [] ∅ translations) msgKey = Some (Verbatim w) ->
  inherited msgKey = true.
Proof.
  assert (forall e, readIndex ∅ msgKey = Some e -> inherited msgKey = true)
    as Hread.
  { intros e. unfold readIndex. rewrite lookup_empty.
    by destruct (inherited msgKey). }
  unfold readIndex.
  destruct (indexOnto [] ∅ translations !! msgKey) as [e|] eqn:Hl.
  2:{ by destruct (inherited msgKey). }
  intros [= ->].
  apply indexOnto_lookup_Some in Hl as [Hl|(v & _ & He)].
  { by rewrite lookup_empty in Hl. }
  rewrite entryOf_own in He. destruct v as [s|b]; [|by eapply Hread].
  case_bool_decide; [by eapply Hread | done].
Qed.

(** An entry only raises in the placeholder comparison: [every] called
    on a read of the own index that is no array, or [includes] called on
    a read of the template index that is a truthy non-string. *)
Lemma checkEntry_Throw code mf own template ce msgKey msgSrc e :
  outcome (checkEntry code mf own template ce (msgKey, msgSrc)) = Throw e ->
  e = TypeError /\
  exists index s,
    template = Some index /\ msgSrc = VString s /\ jsMatch s <> None /\
    ((exists w, readIndex own msgKey = Some (Verbatim w)) \/
     readIndex index msgKey = Some (Verbatim (VOther true))).
Proof.
  unfold checkEntry. destruct (negb (truthy msgSrc)); [done|].
  destruct msgSrc as [s|b]; [|done].
  destruct (jsMatch s) eqn:Hm.
  2:{ unfold checkFormatOf. by destruct mf. }
  unfold checkPlaceholdersOf. destruct template as [index|]; [|done].
  destruct (whenTruthy (readIndex own msgKey)) as [mine|] eqn:Hmine; [|done].
  destruct (whenTruthy (readIndex index msgKey)) as [base|] eqn:Hbase;
    [|done].
  apply whenTruthy_Some in Hmine as [Hmine _].
  apply whenTruthy_Some in Hbase as [Hbase Htruthy].
  rewrite outcome_bind.
  destruct (outcome (every mine (includes base))) as [all|e'] eqn:Hall;
    [done|].
  intros [= <-].
  assert (jsMatch s <> None) as Hm' by by rewrite Hm.
  destruct mine as [toks|w]; cbn [every] in Hall.
  - apply everyOf_includes_Throw in Hall as [-> [b ->]].
    split; [done|]. exists index, s. repeat split; try done. right.
    specialize (Htruthy _ eq_refl). simpl in Htruthy. by subst b.
  - injection Hall as <-. split; [done|]. exists index, s.
    repeat split; try done. left. by exists w.
Qed.

Lemma pushEach_Throw {A B} (f : A -> M (list B)) l e :
  outcome (pushEach f l) = Throw e ->
  exists x, x ∈ l /\ outcome (f x) = Throw e.
Proof.
  induction l as [|x l IH]; [done|].
  rewrite pushEach_cons, outcome_bind.
  destruct (outcome (f x)) as [found|e'] eqn:Hx.
  - rewrite outcome_bind.
    destruct (outcome (pushEach f l)) as [others|e'] eqn:Hl; [done|].
    intros [= <-]. destruct (IH eq_refl) as (y & Hy & He).
    exists y. split; [by right | done].
  - intros [= <-]. exists x. split; [left | done].
Qed.

Lemma pushEach_throws {A B} (f : A -> M (list B)) l x e :
  x ∈ l -> outcome (f x) = Throw e ->
  exists e', outcome (pushEach f l) = Throw e'.
Proof.
  induction l as [|y l IH]; intros Hx He; [by apply elem_of_nil in Hx|].
  rewrite pushEach_cons, outcome_bind.
  destruct (outcome (f y)) as [found|e'] eqn:Hy; [|by eauto].
  apply elem_of_cons in Hx as [->|Hx]; [congruence|].
  destruct (IH Hx He) as [e' He']. exists e'.
  by rewrite outcome_bind, He'.
Qed.

Section Raising.
Context `{Collaborators}.
Context (translations : TranslationSet) (fileName : jsstring)
        (template : option PlaceholderIndex) (cm ce : bool).

Lemma checkFileTranslations_outcome :
  outcome (checkFileTranslations translations fileName template cm ce)
  = outcome (pushEach (checkEntry (fileLanguage fileName)
                         (compilerFor fileName cm)
                         (indexOnto [] ∅ translations) template ce)
               translations).
Proof.
  rewrite checkFileTranslations_eq, outcome_bind.
  unfold makeCompiler, compilerFor. by destruct cm.
Qed.

Lemma checkFileTranslations_Throw e :
  outcome (checkFileTranslations translations fileName template cm ce)
  = Throw e ->
  e = TypeError /\
  exists index msgKey s,
    template = Some index /\ (msgKey, VString s) ∈ translations /\
    jsMatch s <> None /\
    (inherited msgKey = true \/
     index !! msgKey = Some (Verbatim (VOther true))).
Proof.
  rewrite checkFileTranslations_outcome.
  intros ([k v] & Hin & Hthrow)%pushEach_Throw.
  apply checkEntry_Throw in Hthrow as (-> & index & s & -> & -> & ? & Hread).
  split; [done|]. exists index, k, s. repeat split; try done.
  destruct Hread as [[w Hw]|Hread].
  - left. by eapply own_read_Verbatim.
  - unfold readIndex in Hread.
    destruct (index !! k) as [e|]; [by right|].
    left. by destruct (inherited k).
Qed.

(** With distinct keys the own index holds the tokens of every message
    with a span, so only the read of the template index can raise. *)
Lemma checkFileTranslations_Throw_read e :
  NoDup translations.*1 ->
  outcome (checkFileTranslations translations fileName template cm ce)
  = Throw e ->
  e = TypeError /\
  exists index msgKey s,
    template = Some index /\ (msgKey, VString s) ∈ translations /\
    jsMatch s <> None /\
    readIndex index msgKey = Some (Verbatim (VOther true)).
Proof.
  intros Hnd. rewrite checkFileTranslations_outcome.
  intros ([k v] & Hin & Hthrow)%pushEach_Throw.
  apply checkEntry_Throw in Hthrow as (-> & index & s & -> & -> & Hm & Hread).
  split; [done|]. exists index, k, s. repeat split; try done.
  destruct Hread as [[w Hw]|Hread]; [|done].
  destruct (own_index_lookup translations k s Hnd Hin Hm) as [Hown _].
  by rewrite (readIndex_own _ _ _ Hown) in Hw.
Qed.

Lemma checkFileTranslations_raises index msgKey s :
  NoDup translations.*1 ->
  template = Some index -> (msgKey, VString s) ∈ translations ->
  jsMatch s <> None ->
  readIndex index msgKey = Some (Verbatim (VOther true)) ->
  outcome (checkFileTranslations translations fileName template cm ce)
  = Throw TypeError.
Proof.
  intros Hnd Htpl Hin Hm Hbase.
  destruct (own_index_lookup translations msgKey s Hnd Hin Hm)
    as [Hown%readIndex_own Hne].
  destruct (pushEach_throws
              (checkEntry (fileLanguage fileName) (compilerFor fileName cm)
                 (indexOnto [] ∅ translations) template ce)
              translations (msgKey, VString s) TypeError Hin) as [e He].
  { unfold checkEntry. rewrite (jsMatch_truthy s Hm). cbn [negb].
    destruct (jsMatch s); [|done]. unfold checkPlaceholdersOf.
    rewrite Htpl, Hown, Hbase. cbn [whenTruthy truthy every].
    destruct (uniq (placeholderKeys s)) as [|x toks]; [done|].
    by rewrite everyOf_scalar. }
  rewrite <- checkFileTranslations_outcome in He.
  by destruct (checkFileTranslations_Throw e He) as [<- _].
Qed.

(** X13: on a file with distinct keys, the only exception the file
    validator raises is a [TypeError], and it raises it exactly when the
    read of the template index at the key of some message with a
    placeholder span gives a truthy value that is not a string: a value
    stored verbatim from the extra file, or, when the index has no entry
    for the key, the member of [Object.prototype] that the key names.
    The comparison calls [includes] on it.  In particular the validator
    never raises without a template index. *)
Theorem validator_raises_on_scalar_template :
  NoDup translations.*1 ->
  (forall e,
     outcome (checkFileTranslations translations fileName template cm ce)
     = Throw e ->
     e = TypeError /\
     exists index msgKey s,
       template = Some index /\ (msgKey, VString s) ∈ translations /\
       jsMatch s <> None /\
       (index !! msgKey = Some (Verbatim (VOther true)) \/
        (index !! msgKey = None /\ inherited msgKey = true))) /\
  (forall index msgKey s,
     template = Some index -> (msgKey, VString s) ∈ translations ->
     jsMatch s <> None ->
     (index !! msgKey = Some (Verbatim (VOther true)) \/
      (index !! msgKey = None /\ inherited msgKey = true)) ->
     outcome (checkFileTranslations translations fileName template cm ce)
     = Throw TypeError).
Proof.
  intros Hnd.
  assert (forall (index : PlaceholderIndex) k,
            readIndex index k = Some (Verbatim (VOther true)) <->
            (index !! k = Some (Verbatim (VOther true)) \/
             (index !! k = None /\ inherited k = true))) as Hread.
  { intros index k. unfold readIndex.
    destruct (index !! k) as [e|]; [|destruct (inherited k)];
      split; try done; try by auto.
    - by intros [?|[? _]].
    - by intros [?|[_ ?]]. }
  split.
  - intros e (-> & index & k & s & ? & ? & ? & ?)%checkFileTranslations_Throw_read;
      [|done].
    split; [done|]. exists index, k, s. repeat split; try done.
    by apply Hread.
  - intros index k s Htpl Hin Hm Hbase%Hread.
    by eapply checkFileTranslations_raises.
Qed.

(** X14: when the template index holds a string for the key (the extra
    file's message, stored verbatim because neither template message has
    a token), a message with a span is compared by substring: no finding
    when every token of the message occurs somewhere in that string, one
    wrong-placeholder finding otherwise. *)
Theorem verbatim_string_is_substring_tested
    (index : PlaceholderIndex) (msgKey s : jsstring) (c : N) (base : jsstring)
    (t : list Event) (fs : list Finding) :
  NoDup translations.*1 ->
  (msgKey, VString s) ∈ translations ->
  jsMatch s <> None ->
  template = Some index ->
  index !! msgKey = Some (Verbatim (VString (c :: base))) ->
  checkFileTranslations translations fileName template cm ce
  = (t, Return fs) ->
  let forKey := filter (fun f => key f = msgKey) fs in
  ((forall el, el ∈ placeholderKeys s ->
               exists a b, c :: base = a ++ el ++ b) ->
   forKey = []) /\
  ((exists el, el ∈ placeholderKeys s /\
               ~ exists a b, c :: base = a ++ el ++ b) ->
   forKey = [wrongPlaceholder (fileLanguage fileName) msgKey]).
Proof.
  intros Hnd Hin Hm -> Hbase [t' Hrun]%checkFileTranslations_entries forKey.
  destruct (own_index_lookup translations msgKey s Hnd Hin Hm) as [Hown _].
  destruct (findings_of_key _ _ _ _ _ _ _ _ _ _ Hnd Hin Hrun) as [tk Hk].
  fold forKey in Hk.
  apply readIndex_own in Hbase.
  rewrite (checkEntry_placeholders _ _ _ _ _ _ _ _ Hm Hown), Hbase in Hk.
  apply readIndex_own in Hown.
  unfold checkPlaceholdersOf in Hk. rewrite Hown, Hbase in Hk.
  cbn [whenTruthy truthy every] in Hk.
  rewrite everyOf_verbatim_string, bind_ret in Hk.
  set (all := forallb (fun el => isInfix el (c :: base))
                (uniq (placeholderKeys s))) in Hk.
  injection Hk as _ Hfs. rewrite <- Hfs. split.
  - intros Hall. assert (all = true) as ->; [|done].
    apply forallb_forall. intros el Hel.
    apply list_elem_of_In in Hel. rewrite uniq_elem in Hel.
    apply isInfix_spec. by apply Hall.
  - intros (el & Hel & Hnot). assert (all = false) as ->; [|done].
    apply not_true_is_false. intros Hall. apply Hnot.
    apply forallb_forall with (x := el) in Hall; [by apply isInfix_spec|].
    apply list_elem_of_In. by rewrite uniq_elem.
Qed.

End Raising.

(** ** The stages of a run *)

Lemma M_eta {A} (m : M A) : m = (trace m, outcome m).
Proof. by destruct m. Qed.

Lemma await_Return {A} ev (r : jsstring + A) t a :
  await ev r = (t, Return a) -> r = inr a /\ t = [ev].
Proof. unfold await. destruct r; by intros [= <- <-]. Qed.

Lemma await_Throw {A} ev (r : jsstring + A) e :
  outcome (await ev r) = Throw e ->
  exists e', e = CollaboratorError e' /\ r = inl e'.
Proof. unfold await. destruct r as [e'|a]; intros [= <-]. by exists e'. Qed.

Section RunStages.
Context `{Collaborators}.
Context (options : Options) (dir : jsstring).

(** What lines 55-66 did when they returned. *)
Lemma loadTemplates_Return fileNames t en ex template :
  loadTemplates options dir fileNames = (t, Return (en, ex, template)) ->
  if checkPlaceholders options then
    (if bool_decide (EN_FILE ∈ fileNames)
     then parseProperties dir EN_FILE = inr en else en = []) /\
    (if bool_decide (EX_FILE ∈ fileNames)
     then parseProperties dir EX_FILE = inr ex else ex = []) /\
    template = Some (indexOnto ex ∅ en) /\
    t = (if bool_decide (EN_FILE ∈ fileNames)
         then [EvParse dir EN_FILE] else [])
        ++ (if bool_decide (EX_FILE ∈ fileNames)
            then [EvParse dir EX_FILE] else [])
  else en = [] /\ ex = [] /\ template = None /\ t = [].
Proof.
  unfold loadTemplates. destruct (checkPlaceholders options).
  2:{ by intros [= <- <- <- <-]. }
  intros (t1 & en' & t' & Hen & Hrest & ->)%bind_Return.
  apply bind_Return in Hrest as (t2 & ex' & t'' & Hex & Hrest & ->).
  rewrite extractPlaceholdersFromTranslations_ret, bind_ret in Hrest.
  injection Hrest as <- <- <- <-. rewrite app_nil_r.
  assert (forall g ts tg,
    (if bool_decide (g ∈ fileNames)
     then await (EvParse dir g) (parseProperties dir g) else ret [])
    = (tg, Return ts) ->
    (if bool_decide (g ∈ fileNames)
     then parseProperties dir g = inr ts else ts = []) /\
    tg = if bool_decide (g ∈ fileNames) then [EvParse dir g] else [])
    as Hone.
  { intros g ts tg. destruct (bool_decide (g ∈ fileNames)).
    - apply await_Return.
    - by intros [= <- <-]. }
  apply Hone in Hen as [Hen ->]. apply Hone in Hex as [Hex ->]. done.
Qed.

Lemma loadTemplates_Throw fileNames e :
  outcome (loadTemplates options dir fileNames) = Throw e ->
  exists e' f,
    e = CollaboratorError e' /\ f ∈ fileNames /\
    parseProperties dir f = inl e'.
Proof.
  unfold loadTemplates. destruct (checkPlaceholders options); [|done].
  assert (forall g e0,
    outcome (if bool_decide (g ∈ fileNames)
             then await (EvParse dir g) (parseProperties dir g) else ret [])
    = Throw e0 ->
    exists e', e0 = CollaboratorError e' /\ g ∈ fileNames /\
               parseProperties dir g = inl e') as Hone.
  { intros g e0. case_bool_decide as Hg; [|done].
    intros (e' & -> & ?)%await_Throw. by exists e'. }
  rewrite outcome_bind.
  destruct (outcome (if bool_decide (EN_FILE ∈ fileNames) then _ else _))
    as [en|e0] eqn:Hen.
  2:{ intros [= <-]. destruct (Hone _ _ Hen) as (e' & ? & ? & ?).
      by exists e', EN_FILE. }
  rewrite outcome_bind.
  destruct (outcome (if bool_decide (EX_FILE ∈ fileNames) then _ else _))
    as [ex|e0] eqn:Hex.
  2:{ intros [= <-]. destruct (Hone _ _ Hex) as (e' & ? & ? & ?).
      by exists e', EX_FILE. }
  by rewrite extractPlaceholdersFromTranslations_ret, bind_ret.
Qed.

(** What one iteration of lines 68-83 did when it returned. *)
Lemma validateFile_Return en ex template fileName t fs :
  validateFile options dir en ex template fileName = (t, Return fs) ->
  exists translations t0 t1,
    ((checkPlaceholders options = true /\ fileName = EN_FILE /\
      translations = en /\ t0 = []) \/
     (checkPlaceholders options = true /\ fileName = EX_FILE /\
      translations = ex /\ t0 = []) \/
     ((checkPlaceholders options = false \/
       (fileName ≠ EN_FILE /\ fileName ≠ EX_FILE)) /\
      parseProperties dir fileName = inr translations /\
      t0 = [EvParse dir fileName])) /\
    (if bool_decide (fileName ≠ EX_FILE)
     then checkFileTranslations translations fileName template
            (checkMessageformat options) (checkEmpties options)
          = (t1, Return fs)
     else t1 = [] /\ fs = []) /\
    t = t0 ++ t1.
Proof.
  unfold validateFile.
  intros (t0 & translations & t1 & Hsrc & Hcheck & ->)%bind_Return.
  exists translations, t0, t1. split; [|split; [|done]].
  - destruct (checkPlaceholders options) eqn:Hcp; cbn [andb] in Hsrc.
    + destruct (decide (fileName = EN_FILE)) as [Hen|Hen].
      { rewrite (bool_decide_eq_true_2 _ Hen) in Hsrc.
        injection Hsrc as <- <-. by left. }
      rewrite (bool_decide_eq_false_2 _ Hen) in Hsrc.
      destruct (decide (fileName = EX_FILE)) as [Hex|Hex].
      { rewrite (bool_decide_eq_true_2 (fileName = EX_FILE) Hex) in Hsrc.
        injection Hsrc as <- <-. right. by left. }
      rewrite (bool_decide_eq_false_2 (fileName = EX_FILE) Hex) in Hsrc.
      apply await_Return in Hsrc as [? ->]. right. right. by auto.
    + apply await_Return in Hsrc as [? ->]. right. right. by auto.
  - case_bool_decide; [done|]. by injection Hcheck as <- <-.
Qed.

Lemma validateFile_Throw en ex template fileName e :
  outcome (validateFile options dir en ex template fileName) = Throw e ->
  (exists e', e = CollaboratorError e' /\
              parseProperties dir fileName = inl e') \/
  (e = TypeError /\
   exists index translations msgKey s,
     template = Some index /\ fileName ≠ EX_FILE /\
     ((checkPlaceholders options = true /\ fileName = EN_FILE /\
       translations = en) \/
      parseProperties dir fileName = inr translations) /\
     (msgKey, VString s) ∈ translations /\ jsMatch s <> None /\
     (inherited msgKey = true \/
      index !! msgKey = Some (Verbatim (VOther true)))).
Proof.
  unfold validateFile. rewrite outcome_bind.
  destruct (outcome (if checkPlaceholders options && _ then _ else _))
    as [translations|e0] eqn:Hsrc.
  - destruct (decide (fileName ≠ EX_FILE)) as [Hne|Heq].
    2:{ by rewrite (bool_decide_eq_false_2 _ Heq). }
    rewrite (bool_decide_eq_true_2 _ Hne).
    intros (-> & index & k & s & -> & ? & ? & ?)%checkFileTranslations_Throw.
    right. split; [done|]. exists index, translations, k, s.
    repeat split; try done.
    destruct (checkPlaceholders options) eqn:Hcp; cbn [andb] in Hsrc.
    + destruct (decide (fileName = EN_FILE)) as [Hen|Hen].
      { rewrite (bool_decide_eq_true_2 _ Hen) in Hsrc.
        injection Hsrc as <-. by left. }
      rewrite (bool_decide_eq_false_2 _ Hen) in Hsrc.
      rewrite (bool_decide_eq_false_2 (fileName = EX_FILE)) in Hsrc
        by (intros ?; by apply Hne).
      right. destruct (parseProperties dir fileName) as [e'|ts]; [done|].
      by injection Hsrc as <-.
    + right. destruct (parseProperties dir fileName) as [e'|ts]; [done|].
      by injection Hsrc as <-.
  - intros [= <-]. left.
    destruct (checkPlaceholders options && bool_decide (fileName = EN_FILE));
      [done|].
    destruct (checkPlaceholders options && bool_decide (fileName = EX_FILE));
      [done|].
    by apply await_Throw in Hsrc.
Qed.

End RunStages.

(** A run that got through its files went through every stage. *)
Lemma run_inversion `{Collaborators} options dir arg :
  completed (outcome (checkTranslations (Some options) dir arg)) ->
  exists names en ex template t1 t2 errors,
    translationFileNames dir (languages options) = inr names /\
    loadTemplates options dir names = (t1, Return (en, ex, template)) /\
    pushEach (validateFile options dir en ex template) names
    = (t2, Return errors) /\
    trace (checkTranslations (Some options) dir arg)
    = EvDiscover dir (languages options) :: t1 ++ t2 /\
    outcome (checkTranslations (Some options) dir arg)
    = match errors with
      | [] => Return names
      | _ :: _ =>
          Throw (TranslationException
                   (str "Error trying to compile translations")
                   errors names)
      end.
Proof.
  unfold checkTranslations. cbn zeta. cbn [resolveOptions].
  rewrite bind_ret. intros Hc.
  destruct (translationFileNames dir (languages options))
    as [e|names] eqn:Hd; [done|].
  unfold await in *. cbn [bind] in *.
  destruct (loadTemplates options dir names)
    as [t1 [[[en ex] template]|e]] eqn:Hload.
  2:{ destruct (loadTemplates_Throw options dir names e) as (? & ? & -> & _);
        [by rewrite Hload | done]. }
  cbn [bind] in *.
  destruct (pushEach (validateFile options dir en ex template) names)
    as [t2 [errors|e]] eqn:Hloop.
  2:{ destruct (pushEach_Throw (validateFile options dir en ex template)
                  names e) as (f & _ & Hf); [by rewrite Hloop|].
      by apply validateFile_Throw in Hf as [(? & -> & _)|[-> _]]. }
  exists names, en, ex, template, t1, t2, errors.
  repeat split; try done; destruct errors; cbn; by rewrite ?app_nil_r.
Qed.

Section RunProperties.
Context `{Collaborators}.

(** X15: how a run can end.  It returns exactly the names discovery
    gave; the aggregate error carries the fixed message, a non-empty list
    of findings and those names; a [ReferenceError] is for [options] and
    means that the identifier is not bound; any other rejection is the
    error of discovery or of a parse, unchanged, or a [TypeError], which
    only happens when placeholders are checked. *)
Theorem run_outcomes (outer : option Options) (dir : jsstring)
    (arg : option CallOptions) :
  match outcome (checkTranslations outer dir arg) with
  | Return names =>
      exists options,
        outer = Some options /\
        translationFileNames dir (languages options) = inr names
  | Throw (TranslationException msg errors names) =>
      msg = str "Error trying to compile translations" /\ errors <> [] /\
      exists options,
        outer = Some options /\
        translationFileNames dir (languages options) = inr names
  | Throw (ReferenceError name) => outer = None /\ name = str "options"
  | Throw (CollaboratorError e) =>
      exists options,
        outer = Some options /\
        (translationFileNames dir (languages options) = inl e \/
         exists f, parseProperties dir f = inl e)
  | Throw TypeError =>
      exists options,
        outer = Some options /\ checkPlaceholders options = true
  end.
Proof.
  destruct outer as [options|]; [|done].
  destruct (outcome (checkTranslations (Some options) dir arg))
    as [names|e] eqn:Hout.
  { destruct (run_inversion options dir arg) as
      (names' & _ & _ & _ & _ & _ & errors & Hd & _ & _ & _ & Hout');
      [by rewrite Hout|].
    rewrite Hout in Hout'. destruct errors; [|done].
    injection Hout' as ->. by exists options. }
  destruct e as [name|  |e|msg errors names].
  4:{ destruct (run_inversion options dir arg) as
        (names' & _ & _ & _ & _ & _ & errors' & Hd & _ & _ & _ & Hout');
        [by rewrite Hout|].
      rewrite Hout in Hout'. destruct errors' as [|f errors']; [done|].
      injection Hout' as -> -> ->. repeat split; [done|]. by exists options. }
  all: revert Hout; unfold checkTranslations; cbn zeta;
    cbn [resolveOptions]; rewrite bind_ret, outcome_bind.
  all: destruct (translationFileNames dir (languages options))
         as [e0|names] eqn:Hd; cbn [await outcome snd].
  all: try (intros [= <-]; exists options; by auto).
  all: try done.
  all: rewrite outcome_bind.
  all: destruct (outcome (loadTemplates options dir names))
         as [[[en ex] template]|e1] eqn:Hload.
  all: try (intros [= ->];
            by destruct (loadTemplates_Throw _ _ _ _ Hload)
              as (? & ? & [=] & _)).
  all: try (intros [= ->];
            destruct (loadTemplates_Throw _ _ _ _ Hload)
              as (e' & f & [= <-] & _ & Hf);
            exists options; split; [done|]; right; by exists f).
  all: rewrite outcome_bind.
  all: destruct (outcome (pushEach _ names)) as [errors|e2] eqn:Hloop;
         [by destruct errors|].
  all: intros [= ->];
         apply pushEach_Throw in Hloop as (f & _ & Hf);
         apply validateFile_Throw in Hf
           as [(e' & He & Hf)|[He (index & ? & ? & ? & -> & _)]];
         try done.
  - exists options. split; [done|].
    assert (loadTemplates options dir names
            = (trace (loadTemplates options dir names),
               Return (en, ex, Some index))) as Hret
      by (rewrite <- Hload; apply M_eta).
    apply loadTemplates_Return in Hret.
    destruct (checkPlaceholders options); [done|].
    by destruct Hret as (_ & _ & ? & _).
  - injection He as <-. exists options. split; [done|]. right. by exists f.
Qed.

End RunProperties.

Lemma filter_eq_once (g : jsstring) (l : list jsstring) :
  NoDup l -> g ∈ l -> length (filter (fun f => f = g) l) = 1%nat.
Proof.
  induction 1 as [|x l Hx Hnd IH]; intros Hg; [by apply elem_of_nil in Hg|].
  destruct (decide (x = g)) as [->|Hne].
  - rewrite filter_cons_True by done.
    rewrite filter_none; [done|]. apply Forall_forall. by intros y Hy ->.
  - rewrite filter_cons_False by done. apply IH.
    apply elem_of_cons in Hg as [->|Hg]; done.
Qed.

Lemma reason_without_template code mf ce translations f :
  reason code mf None ce translations f ->
  error f = EmptyMessage \/ error f = WrongMessageformat.
Proof. destruct 1; by auto. Qed.

Section CompletedRuns.
Context `{Collaborators}.
Context (options : Options) (dir : jsstring) (arg : option CallOptions).

Lemma validateFile_Return_parses en ex template fileName t fs g :
  validateFile options dir en ex template fileName = (t, Return fs) ->
  parses dir g t
  = if decide (reused options fileName) then 0%nat
    else if decide (fileName = g) then 1%nat else 0%nat.
Proof.
  intros (ts & t0 & t1 & Hsrc & Hcheck & ->)%validateFile_Return.
  rewrite parses_app.
  assert (parses dir g t1 = 0%nat) as ->.
  { destruct (bool_decide (fileName ≠ EX_FILE)).
    - rewrite <- (checkFileTranslations_parses dir g ts fileName template
                   (checkMessageformat options) (checkEmpties options)).
      by rewrite Hcheck.
    - by destruct Hcheck as [-> _]. }
  unfold reused.
  destruct Hsrc as [(Hcp & -> & _ & ->)|[(Hcp & -> & _ & ->)|(Hno & _ & ->)]].
  - rewrite decide_True by auto. done.
  - rewrite decide_True by auto. done.
  - rewrite decide_False by (intros [? ?]; destruct Hno as [?|[? ?]];
      [congruence | tauto]).
    unfold parses. destruct (decide (fileName = g)) as [->|Hne].
    + by rewrite filter_cons_True.
    + rewrite filter_cons_False; [done|]. congruence.
Qed.

Lemma validateFiles_Return_parses en ex template fileNames t fs g :
  pushEach (validateFile options dir en ex template) fileNames
  = (t, Return fs) ->
  parses dir g t
  = if decide (reused options g) then 0%nat
    else length (filter (fun f => f = g) fileNames).
Proof.
  revert t fs. induction fileNames as [|f l IH]; intros t fs Hrun.
  - injection Hrun as <- <-. by destruct (decide (reused options g)).
  - apply pushEach_cons_Return in Hrun
      as (t1 & f1 & t2 & f2 & Hf & Hl & -> & ->).
    rewrite parses_app, (IH _ _ Hl),
      (validateFile_Return_parses _ _ _ _ _ _ g Hf).
    destruct (decide (f = g)) as [->|Hne].
    + rewrite filter_cons_True by done.
      by destruct (decide (reused options g)).
    + rewrite filter_cons_False by done.
      by destruct (decide (reused options f)), (decide (reused options g)).
Qed.

(** X16: a run that got through its files (it returned, or raised the
    aggregate error) parsed every discovered file successfully, the extra
    file included although it is not validated: the failure of any parse
    aborts the run, and what was found before is not reported. *)
Theorem completed_run_parsed_every_file (fileNames : list jsstring)
    (f : jsstring) :
  completed (outcome (checkTranslations (Some options) dir arg)) ->
  translationFileNames dir (languages options) = inr fileNames ->
  f ∈ fileNames ->
  exists translations, parseProperties dir f = inr translations.
Proof.
  intros (names & en & ex & template & t1 & t2 & errors & Hd & Hload & Hloop
          & _)%run_inversion Hd' Hf.
  rewrite Hd in Hd'. injection Hd' as ->.
  destruct (pushEach_each_returns _ _ _ _ _ Hloop Hf) as (tf & ff & Hrun).
  apply validateFile_Return in Hrun
    as (ts & t0 & _ & [(Hcp & -> & _)|[(Hcp & -> & _)|(_ & Hp & _)]] & _).
  - apply loadTemplates_Return in Hload. rewrite Hcp in Hload.
    rewrite (bool_decide_eq_true_2 _ Hf) in Hload.
    destruct Hload as (? & _). by exists en.
  - apply loadTemplates_Return in Hload. rewrite Hcp in Hload.
    rewrite (bool_decide_eq_true_2 (EX_FILE ∈ fileNames) Hf) in Hload.
    destruct Hload as (_ & ? & _). by exists ex.
  - by exists ts.
Qed.

(** X17: with [checkPlaceholders] falsy no template index is built and
    no finding of the aggregate error is a placeholder finding: each is
    an empty message or a format error. *)
Theorem placeholders_off_no_placeholder_findings (msg : jsstring)
    (errors : list Finding) (fileNames : list jsstring) :
  checkPlaceholders options = false ->
  outcome (checkTranslations (Some options) dir arg)
  = Throw (TranslationException msg errors fileNames) ->
  Forall (fun f => error f = EmptyMessage \/ error f = WrongMessageformat)
    errors.
Proof.
  intros Hcp Hout.
  destruct (run_inversion options dir arg)
    as (names & en & ex & template & t1 & t2 & errors' & _ & Hload & Hloop
        & _ & Hout'); [by rewrite Hout|].
  rewrite Hout in Hout'. destruct errors' as [|e errors']; [done|].
  injection Hout' as -> -> ->.
  apply loadTemplates_Return in Hload. rewrite Hcp in Hload.
  destruct Hload as (_ & _ & -> & _).
  apply Forall_forall. intros f Hf.
  destruct (pushEach_origin _ _ _ _ _ Hloop Hf) as (x & tx & fx & _ & Hx & Hfx).
  apply validateFile_Return in Hx as (ts & _ & t0 & _ & Hcheck & _).
  destruct (bool_decide (x ≠ EX_FILE)).
  - apply checkFileTranslations_reasons in Hcheck.
    rewrite Forall_forall in Hcheck.
    by eapply reason_without_template, Hcheck.
  - destruct Hcheck as [_ ->]. by apply elem_of_nil in Hfx.
Qed.

(** X18: in a run that got through its files every discovered file was
    parsed exactly once (discovery listing no file twice), whether it
    was loaded as a template or in the loop. *)
Theorem completed_run_parses_each_file_once (fileNames : list jsstring)
    (g : jsstring) :
  (forall langs names,
     translationFileNames dir langs = inr names -> NoDup names) ->
  completed (outcome (checkTranslations (Some options) dir arg)) ->
  translationFileNames dir (languages options) = inr fileNames ->
  g ∈ fileNames ->
  parses dir g (trace (checkTranslations (Some options) dir arg)) = 1%nat.
Proof.
  intros Hnd (names & en & ex & template & t1 & t2 & errors & Hd & Hload
              & Hloop & -> & _)%run_inversion Hd' Hg.
  rewrite Hd in Hd'. injection Hd' as ->. specialize (Hnd _ _ Hd).
  change (EvDiscover dir (languages options) :: t1 ++ t2)
    with ([EvDiscover dir (languages options)] ++ t1 ++ t2).
  rewrite !parses_app,
    (parses_none dir g [EvDiscover dir (languages options)])
    by by repeat constructor.
  rewrite (validateFiles_Return_parses _ _ _ _ _ _ g Hloop).
  rewrite (filter_eq_once g fileNames Hnd Hg).
  apply loadTemplates_Return in Hload. unfold reused.
  destruct (checkPlaceholders options).
  2:{ destruct Hload as (_ & _ & _ & ->).
      by rewrite decide_False by by intros [? _]. }
  destruct Hload as (_ & _ & _ & ->). pose proof EN_EX_differ as Hdiff.
  unfold parses. destruct (decide (g = EN_FILE)) as [->|Hen].
  { rewrite decide_True by auto. rewrite (bool_decide_eq_true_2 _ Hg).
    rewrite filter_app, filter_cons_True by done.
    rewrite (filter_none _ (if bool_decide (EX_FILE ∈ fileNames) then _ else _));
      [done|].
    destruct (bool_decide (EX_FILE ∈ fileNames)); repeat constructor.
    congruence. }
  destruct (decide (g = EX_FILE)) as [->|Hex].
  { rewrite decide_True by auto.
    rewrite (bool_decide_eq_true_2 (EX_FILE ∈ fileNames) Hg).
    rewrite filter_app, (filter_cons_True _ (EvParse dir EX_FILE)) by done.
    rewrite filter_none; [done|].
    destruct (bool_decide (EN_FILE ∈ fileNames)); repeat constructor.
    congruence. }
  rewrite decide_False by (intros [_ [?|?]]; done).
  rewrite filter_none; [done|]. apply Forall_app.
  split; [destruct (bool_decide (EN_FILE ∈ fileNames))
         | destruct (bool_decide (EX_FILE ∈ fileNames))];
    repeat constructor; congruence.
Qed.

End CompletedRuns.

(** ** What a run calls *)

Section RunEvents.
Context `{Collaborators}.
Context (options : Options) (dir : jsstring) (fileNames : list jsstring).

Local Abbreviation later := (laterEvent options dir fileNames).

Lemma load_events g :
  Forall later
    (trace (if bool_decide (g ∈ fileNames)
            then await (EvParse dir g) (parseProperties dir g)
            else ret [])).
Proof. case_bool_decide; by repeat constructor. Qed.

Lemma loadTemplates_events :
  Forall later (trace (loadTemplates options dir fileNames)).
Proof.
  unfold loadTemplates. destruct (checkPlaceholders options); [|constructor].
  apply Forall_trace_bind; [apply load_events|]. intros en _.
  apply Forall_trace_bind; [apply load_events|]. intros ex _.
  rewrite extractPlaceholdersFromTranslations_ret, bind_ret. constructor.
Qed.

Lemma validateFile_events en ex template fileName :
  fileName ∈ fileNames ->
  Forall later (trace (validateFile options dir en ex template fileName)).
Proof.
  intros Hin. unfold validateFile. apply Forall_trace_bind.
  - destruct (checkPlaceholders options && bool_decide (fileName = EN_FILE));
      [constructor|].
    destruct (checkPlaceholders options && bool_decide (fileName = EX_FILE));
      [constructor|].
    by repeat constructor.
  - intros ts _. case_bool_decide as Hne; [|constructor].
    eapply Forall_impl; [apply checkFileTranslations_calls|].
    intros [d l|d f|l|l s]; unfold laterEvent; cbn [expectedEvent];
      try done.
    + intros [-> ?]. split; [|done]. split; [done|]. by exists fileName.
    + intros (-> & ? & ? & ? & _). split; [|done]. split; [done|].
      by exists fileName.
Qed.

Lemma stages_events arg :
  translationFileNames dir (languages options) = inr fileNames ->
  exists t,
    trace (checkTranslations (Some options) dir arg)
    = EvDiscover dir (languages options) :: t /\
    Forall (fun ev =>
              expectedEvent options dir fileNames ev /\
              forall d langs, ev <> EvDiscover d langs) t.
Proof.
  intros Hd. unfold checkTranslations. cbn zeta. cbn [resolveOptions].
  rewrite bind_ret, trace_bind, Hd. cbn [await trace outcome fst snd app].
  eexists. split; [done|].
  apply Forall_trace_bind; [apply loadTemplates_events|].
  intros [[en ex] template] _.
  apply Forall_trace_bind; [|intros errors _; destruct errors; constructor].
  apply Forall_trace_pushEach. intros f Hf. by apply validateFile_events.
Qed.

End RunEvents.

(** X19: what a run calls.  Without a binding of [options] it calls
    nothing; otherwise it first calls discovery, with the directory and
    [options.languages], and stops there if discovery fails; after that
    it parses only discovered files of that directory, and it constructs
    compilers and compiles messages only with [checkMessageformat] truthy
    and only for the language of a discovered file other than the extra
    file, compiling only messages without a placeholder span. *)
Theorem run_calls `{Collaborators} (outer : option Options) (dir : jsstring)
    (arg : option CallOptions) :
  match outer with
  | None => trace (checkTranslations outer dir arg) = []
  | Some options =>
      match translationFileNames dir (languages options) with
      | inl _ =>
          trace (checkTranslations outer dir arg)
          = [EvDiscover dir (languages options)]
      | inr fileNames =>
          exists t,
            trace (checkTranslations outer dir arg)
            = EvDiscover dir (languages options) :: t /\
            Forall (fun ev =>
                      expectedEvent options dir fileNames ev /\
                      forall d langs, ev <> EvDiscover d langs) t
      end
  end.
Proof.
  destruct outer as [options|]; [|done].
  destruct (translationFileNames dir (languages options))
    as [e|fileNames] eqn:Hd; [|by apply stages_events].
  unfold checkTranslations. cbn zeta. cbn [resolveOptions].
  by rewrite bind_ret, trace_bind, Hd.
Qed.

(** ** A truthy non-string value in the extra file *)



Section ScalarInExtra.
Context `{Collaborators}.
Context (options : Options) (dir : jsstring) (arg : option CallOptions)
        (fileNames : list jsstring) (content : jsstring -> TranslationSet).

(** X21: with placeholders checked and the base and extra files
    discovered, a key whose base message has no placeholder and whose
    value in the extra file is a truthy non-string makes the run fail:
    as soon as a validated file has a message with a placeholder span
    for that key, the run is rejected with a [TypeError] and reports no
    finding. *)
Theorem scalar_in_extra_file_rejects_the_run
    (fileName msgKey s : jsstring) (base : Value) :
  checkPlaceholders options = true ->
  translationFileNames dir (languages options) = inr fileNames ->
  (forall f, f ∈ fileNames -> parseProperties dir f = inr (content f)) ->
  EN_FILE ∈ fileNames -> EX_FILE ∈ fileNames ->
  NoDup (content EN_FILE).*1 ->
  (msgKey, base) ∈ content EN_FILE ->
  (forall m, base = VString m -> jsMatch m = None) ->
  getProp (content EX_FILE) msgKey = VOther true ->
  fileName ∈ fileNames -> fileName ≠ EX_FILE ->
  NoDup (content fileName).*1 ->
  (msgKey, VString s) ∈ content fileName ->
  jsMatch s <> None ->
  outcome (checkTranslations (Some options) dir arg) = Throw TypeError.
Proof.
  intros Hcp Hd Hparse Hen Hex Hnd Hbase Hplain Hscalar Hf Hne Hndf Hin Hm.
  set (index := indexOnto (content EX_FILE) ∅ (content EN_FILE)).
  assert (templateOf options fileNames content = Some index) as Htpl.
  { unfold templateOf. by rewrite Hcp, !bool_decide_eq_true_2. }
  assert (index !! msgKey = Some (Verbatim (VOther true))) as Hk.
  { unfold index. rewrite (indexOnto_lookup _ _ _ _ base) by done.
    unfold entryOf. rewrite Hscalar. cbn [tokensOf truthy].
    rewrite app_nil_r.
    assert (tokensOf base = []) as ->; [|done].
    destruct base as [m|b]; [|done]. cbn [tokensOf].
    by apply placeholderKeys_nil, Hplain. }
  set (g := fun f => if bool_decide (f ≠ EX_FILE)
                     then validation options fileNames content f
                     else ret []).
  assert (outcome (pushEach g fileNames) = Throw TypeError) as Hloop.
  { destruct (pushEach_throws g fileNames fileName TypeError Hf) as [e He].
    { unfold g. rewrite bool_decide_eq_true_2 by done. unfold validation.
      eapply checkFileTranslations_raises; eauto.
      by apply readIndex_own. }
    rewrite He. f_equal.
    apply pushEach_Throw in He as (x & _ & Hx). unfold g in Hx.
    destruct (bool_decide (x ≠ EX_FILE)); [|done].
    by apply checkFileTranslations_Throw in Hx as [-> _]. }
  unfold checkTranslations. cbn zeta. cbn [resolveOptions].
  rewrite bind_ret, outcome_bind, Hd, outcome_await, outcome_bind.
  rewrite (loadTemplates_outcome options dir fileNames content Hparse).
  rewrite outcome_bind.
  rewrite (outcome_pushEach_ext _ g).
  2:{ intros f' Hf'.
      by apply (validateFile_outcome options dir fileNames content Hparse). }
  by rewrite Hloop.
Qed.

End ScalarInExtra.

(** ** The further properties at work on the concrete worlds *)

Lemma findings_have_reasons_witness :
  let es :=
    [(str "greeting", VString (str "Hola {{nombre}}"));
     (str "count", VString [])] in
  let index := indexOnto [] ∅
                 [(str "greeting", VString (str "Hello {{name}}"))] in
  Forall (reason (str "es")
            (@compilerFor Demo.world (str "messages-es.properties") true)
            (Some index) true es)
    [wrongPlaceholder (str "es") (str "greeting");
     emptyMessage (str "es") (str "count")].
Proof.
  intros es index.
  apply (@findings_have_reasons Demo.world es (str "messages-es.properties")
           (Some index) true true [EvNewMessageFormat (str "es")]).
  by vm_compute.
Defined.

Lemma falsy_values_are_empty_messages_witness :
  let es := [(str "count", VString []); (str "total", VOther false)] in
  filter (fun f => key f = str "total")
    (found (@checkFileTranslations Demo.world es
              (str "messages-es.properties") None true true))
  = [emptyMessage (str "es") (str "total")].
Proof.
  intros es.
  apply (@falsy_values_are_empty_messages Demo.world es
           (str "messages-es.properties") None true true
           (str "total") (VOther false)
           [EvNewMessageFormat (str "es")]).
  - by_evaluation.
  - by_evaluation.
  - reflexivity.
  - by vm_compute.
Defined.

Lemma format_findings_per_key_witness :
  let plural := str "{count, plural, one{1} other{}" in
  let en := [(str "plural", VString plural)] in
  filter (fun f => key f = str "plural")
    (found (@checkFileTranslations Demo.world en EN_FILE None true true))
  = [wrongMessageformat (str "en") (str "plural") plural
       {| errMessage := str "unbalanced braces" |}].
Proof.
  intros plural en.
  etransitivity;
    [apply (@format_findings_per_key Demo.world en EN_FILE None true true
              (str "plural") plural
              [EvNewMessageFormat (str "en"); EvCompile (str "en") plural])|].
  - by_evaluation.
  - by_evaluation.
  - by vm_compute.
  - by vm_compute.
  - by vm_compute.
  - by vm_compute.
Defined.

Lemma truthy_nonstrings_are_skipped_witness :
  let es := [(str "count", VOther true); (str "empty", VString [])] in
  filter (fun f => key f = str "count")
    (found (@checkFileTranslations Demo.world es
              (str "messages-es.properties") (Some ∅) true true))
  = [].
Proof.
  intros es.
  apply (@truthy_nonstrings_are_skipped Demo.world es
           (str "messages-es.properties") (Some ∅) true true (str "count")
           [EvNewMessageFormat (str "es")]).
  - by_evaluation.
  - by_evaluation.
  - by vm_compute.
Defined.

Lemma findings_follow_entries_witness :
  let es := [(str "a", VString []); (str "b", VString (str "fine"));
             (str "c", VString (str "{{x}}"))] in
  let fs := [emptyMessage (str "es") (str "a");
             missedPlaceholder (str "es") (str "c")] in
  key <$> fs `sublist_of` es.*1 /\ (NoDup es.*1 -> NoDup (key <$> fs)).
Proof.
  intros es fs.
  apply (@findings_follow_entries Demo.world es
           (str "messages-es.properties") (Some ∅) true true
           [EvNewMessageFormat (str "es"); EvCompile (str "es") (str "fine")]).
  by vm_compute.
Defined.

Lemma calls_in_entry_order_witness :
  let en := [(str "a", VString (str "one")); (str "b", VString (str "{{x}}"));
             (str "c", VString []); (str "d", VString (str "two"))] in
  trace (@checkFileTranslations Demo.world en EN_FILE None true false)
  = [EvNewMessageFormat (str "en"); EvCompile (str "en") (str "one");
     EvCompile (str "en") (str "two")].
Proof.
  intros en.
  etransitivity;
    [apply (@calls_in_entry_order Demo.world en EN_FILE None true false
              (trace (@checkFileTranslations Demo.world en EN_FILE None
                        true false)) [])|].
  - by vm_compute.
  - by vm_compute.
Defined.

Lemma verbatim_string_is_substring_tested_witness :
  let es := [(str "farewell", VString (str "Adios {{name}}"))] in
  let index : PlaceholderIndex :=
    {[ str "farewell" := Verbatim (VString (str "Goodbye")) ]} in
  filter (fun f => key f = str "farewell")
    (found (@checkFileTranslations Demo.world es
              (str "messages-es.properties") (Some index) true true))
  = [wrongPlaceholder (str "es") (str "farewell")].
Proof.
  intros es index.
  apply (@verbatim_string_is_substring_tested Demo.world es
           (str "messages-es.properties") (Some index) true true index
           (str "farewell") (str "Adios {{name}}") 71 (str "oodbye")
           [EvNewMessageFormat (str "es")]).
  - by_evaluation.
  - by_evaluation.
  - by vm_compute.
  - reflexivity.
  - by vm_compute.
  - by vm_compute.
  - exists (str "name"). split; [by_evaluation|].
    intros Hsub%isInfix_spec. by vm_compute in Hsub.
Defined.

Lemma completed_run_parsed_every_file_witness :
  exists translations,
    @parseProperties Demo.world (str "ok") EX_FILE = inr translations.
Proof.
  apply (@completed_run_parsed_every_file Demo.world Demo.allOn (str "ok")
           None [EN_FILE; str "messages-es.properties"; EX_FILE]).
  - by vm_compute.
  - reflexivity.
  - by_evaluation.
Defined.

Lemma placeholders_off_no_placeholder_findings_witness :
  let options := {| languages := None; checkPlaceholders := false;
                    checkMessageformat := true; checkEmpties := true |} in
  exists errors,
    errors <> [] /\
    Forall (fun f => error f = EmptyMessage \/ error f = WrongMessageformat)
      errors.
Proof.
  intros options.
  exists (found (pushEach
                   (@validateFile Demo.world options (str "bad") [] [] None)
                   [EN_FILE; str "messages-es.properties"])).
  split; [by vm_compute|].
  apply (@placeholders_off_no_placeholder_findings Demo.world options
           (str "bad") None (str "Error trying to compile translations")
           _ [EN_FILE; str "messages-es.properties"]).
  - reflexivity.
  - by vm_compute.
Defined.

Lemma completed_run_parses_each_file_once_witness :
  parses (str "ok") EX_FILE
    (trace (@checkTranslations Demo.world (Some Demo.allOn) (str "ok") None))
  = 1%nat.
Proof.
  apply (@completed_run_parses_each_file_once Demo.world Demo.allOn
           (str "ok") None [EN_FILE; str "messages-es.properties"; EX_FILE]).
  - apply demo_discovery_lists_once.
  - by vm_compute.
  - reflexivity.
  - by_evaluation.
Defined.


Lemma scalar_in_extra_file_rejects_the_run_witness :
  outcome (@checkTranslations Fixture.world (Some Demo.allOn) (str "scalars")
             None)
  = Throw TypeError.
Proof.
  apply (@scalar_in_extra_file_rejects_the_run Fixture.world Demo.allOn
           (str "scalars") None
           [EN_FILE; str "messages-es.properties"; EX_FILE]
           (Fixture.contentOf (str "scalars"))
           (str "messages-es.properties") (str "count") (str "{{n}} cosas")
           (VString (str "Count"))).
  - reflexivity.
  - reflexivity.
  - intros f Hf. each_member f Hf ltac:(by vm_compute).
  - by_evaluation.
  - by_evaluation.
  - by_evaluation.
  - by_evaluation.
  - intros m [= <-]. by vm_compute.
  - by vm_compute.
  - by_evaluation.
  - by vm_compute.
  - by_evaluation.
  - by_evaluation.
  - by vm_compute.
Defined.

(** ** The three switches are independent *)

Lemma checkEntry_cases code mf own template ce msgKey msgSrc :
  (truthy msgSrc = false /\
   checkEntry code mf own template ce (msgKey, msgSrc)
   = ret (if ce then [emptyMessage code msgKey] else [])) \/
  (exists s, msgSrc = VString s /\ jsMatch s <> None /\
     checkEntry code mf own template ce (msgKey, msgSrc)
     = checkPlaceholdersOf code own template msgKey) \/
  (exists s, msgSrc = VString s /\ s <> [] /\ jsMatch s = None /\
     checkEntry code mf own template ce (msgKey, msgSrc)
     = checkFormatOf code mf msgKey s) \/
  (msgSrc = VOther true /\
   checkEntry code mf own template ce (msgKey, msgSrc) = ret []).
Proof.
  destruct (truthy msgSrc) eqn:Hv.
  2:{ left. split; [done|]. by apply checkEntry_falsy. }
  right. destruct msgSrc as [s|b].
  2:{ right. right. simpl in Hv. by subst b. }
  assert (s <> []) as Hs by by destruct s.
  destruct (jsMatch s) as [ms|] eqn:Hm.
  - left. exists s. split; [done|]. split; [by rewrite Hm|].
    unfold checkEntry. by rewrite Hv, Hm.
  - right. left. exists s. repeat split; try done.
    by apply checkEntry_format.
Qed.

Lemma checkPlaceholdersOf_kinds code own template msgKey t fs :
  checkPlaceholdersOf code own template msgKey = (t, Return fs) ->
  Forall (fun f => error f = MissedPlaceholder \/ error f = WrongPlaceholder)
    fs.
Proof.
  unfold checkPlaceholdersOf. destruct template as [index|].
  2:{ intros [= <- <-]. apply Forall_nil_2. }
  destruct (whenTruthy (readIndex own msgKey)) as [mine|].
  2:{ intros [= <- <-]. apply Forall_nil_2. }
  destruct (whenTruthy (readIndex index msgKey)) as [base|].
  2:{ intros [= <- <-]. apply Forall_cons; split; [by left|].
      apply Forall_nil_2. }
  intros (t1 & found & t2 & _ & [= <- <-] & _)%bind_Return.
  destruct found; cbn [negb]; [apply Forall_nil_2|].
  apply Forall_cons; split; [by right | apply Forall_nil_2].
Qed.

Lemma checkFormatOf_kinds code mf msgKey s t fs :
  checkFormatOf code mf msgKey s = (t, Return fs) ->
  Forall (fun f => error f = WrongMessageformat) fs.
Proof.
  unfold checkFormatOf. destruct mf as [compiler|]; intros [= <- <-];
    [destruct (compile compiler s)|]; try apply Forall_nil_2.
  apply Forall_cons; split; [done | apply Forall_nil_2].
Qed.

Lemma pushEach_filter {A B} (P : B -> Prop) `{forall b, Decision (P b)}
    (f g : A -> M (list B)) l t fs :
  pushEach f l = (t, Return fs) ->
  (forall x tx fx, x ∈ l -> f x = (tx, Return fx) ->
     outcome (g x) = Return (filter P fx)) ->
  outcome (pushEach g l) = Return (filter P fs).
Proof.
  revert t fs. induction l as [|x l IH]; intros t fs Hrun Hstep.
  - by injection Hrun as <- <-.
  - apply pushEach_cons_Return in Hrun
      as (t1 & f1 & t2 & f2 & Hx & Hl & -> & ->).
    rewrite pushEach_cons, outcome_bind, (Hstep x t1 f1) by (done || left).
    rewrite outcome_bind, (IH _ _ Hl).
    + cbn [outcome ret snd]. by rewrite filter_app.
    + intros y ty fy Hy. apply Hstep. by right.
Qed.

Section Switches.
Context `{Collaborators}.
Context (translations : TranslationSet) (fileName : jsstring)
        (template : option PlaceholderIndex) (cm ce : bool).

(** X22: the three checks do not interfere.  When a file validation
    returns, the same validation with the format check off returns the
    same findings without the format errors; with [checkEmpties] off,
    the same findings without the empty messages; and without a template
    index, the same findings without the placeholder findings. *)
Theorem switches_are_independent (t : list Event) (fs : list Finding) :
  checkFileTranslations translations fileName template cm ce
  = (t, Return fs) ->
  outcome (checkFileTranslations translations fileName template false ce)
  = Return (filter (fun f => error f ≠ WrongMessageformat) fs) /\
  outcome (checkFileTranslations translations fileName template cm false)
  = Return (filter (fun f => error f ≠ EmptyMessage) fs) /\
  outcome (checkFileTranslations translations fileName None cm ce)
  = Return (filter (fun f => error f ≠ MissedPlaceholder /\
                             error f ≠ WrongPlaceholder) fs).
Proof.
  intros [t' Hrun]%checkFileTranslations_entries.
  rewrite !checkFileTranslations_outcome.
  split; [|split]; eapply pushEach_filter; try exact Hrun;
    intros [k v] tx fx _ Hx;
    destruct (checkEntry_cases (fileLanguage fileName)
                (compilerFor fileName cm) (indexOnto [] ∅ translations)
                template ce k v)
      as [[Hv He]|[(s & -> & Hm & He)|[(s & -> & Hs & Hm & He)|[-> He]]]];
    rewrite He in Hx.
  - rewrite checkEntry_falsy by done. injection Hx as _ <-. by destruct ce.
  - unfold checkEntry. rewrite (jsMatch_truthy s Hm). cbn [negb].
    destruct (jsMatch s); [|done]. rewrite Hx. cbn [outcome snd].
    rewrite filter_all; [done|].
    eapply Forall_impl; [by eapply checkPlaceholdersOf_kinds|].
    intros f [-> | ->]; done.
  - rewrite checkEntry_format by done.
    apply checkFormatOf_kinds in Hx. cbn [compilerFor checkFormatOf].
    cbn [outcome ret snd]. rewrite filter_none; [done|].
    eapply Forall_impl; [exact Hx|]. by intros f -> [].
  - by injection Hx as _ <-.
  - rewrite checkEntry_falsy by done. injection Hx as _ <-. by destruct ce.
  - unfold checkEntry. rewrite (jsMatch_truthy s Hm). cbn [negb].
    destruct (jsMatch s); [|done]. rewrite Hx. cbn [outcome snd].
    rewrite filter_all; [done|].
    eapply Forall_impl; [by eapply checkPlaceholdersOf_kinds|].
    intros f [-> | ->]; done.
  - rewrite checkEntry_format, Hx by done. cbn [outcome snd].
    rewrite filter_all; [done|].
    eapply Forall_impl; [by eapply checkFormatOf_kinds|]. by intros f ->.
  - by injection Hx as _ <-.
  - rewrite checkEntry_falsy by done. injection Hx as _ <-. by destruct ce.
  - unfold checkEntry. rewrite (jsMatch_truthy s Hm). cbn [negb].
    destruct (jsMatch s); [|done]. cbn [checkPlaceholdersOf outcome ret snd].
    rewrite filter_none; [done|].
    eapply Forall_impl; [by eapply checkPlaceholdersOf_kinds|].
    intros f [-> | ->] [? ?]; done.
  - rewrite checkEntry_format, Hx by done. cbn [outcome snd].
    rewrite filter_all; [done|].
    eapply Forall_impl; [by eapply checkFormatOf_kinds|]. by intros f ->.
  - by injection Hx as _ <-.
Qed.

End Switches.

(** ** The base file against its own template *)

Lemma uniq_app_l l k el : el ∈ uniq l -> el ∈ uniq (l ++ k).
Proof. rewrite !uniq_elem, elem_of_app. by left. Qed.

(** X23: the base file satisfies the template index built from it,
    whatever the extra file holds: validated against that index it never
    raises and gets no placeholder finding, only empty messages and
    format errors. *)
Theorem base_file_satisfies_its_template `{Collaborators}
    (en ex : TranslationSet) (fileName : jsstring) (cm ce : bool)
    (index : PlaceholderIndex) :
  NoDup en.*1 ->
  extractPlaceholdersFromTranslations en ex = ret index ->
  exists t fs,
    checkFileTranslations en fileName (Some index) cm ce = (t, Return fs) /\
    Forall (fun f => error f = EmptyMessage \/ error f = WrongMessageformat)
      fs.
Proof.
  intros Hnd. rewrite extractPlaceholdersFromTranslations_ret. intros [= <-].
  set (index := indexOnto ex ∅ en).
  set (check := checkEntry (fileLanguage fileName) (compilerFor fileName cm)
                  (indexOnto [] ∅ en) (Some index) ce).
  assert (forall entry, entry ∈ en ->
            exists tx fx,
              check entry = (tx, Return fx) /\
              Forall (fun f => error f = EmptyMessage \/
                               error f = WrongMessageformat) fx) as Hentry.
  { intros [k v] Hin. unfold check.
    destruct (checkEntry_cases (fileLanguage fileName)
                (compilerFor fileName cm) (indexOnto [] ∅ en)
                (Some index) ce k v)
      as [[Hv ->]|[(s & -> & Hm & He)|[(s & -> & Hs & Hm & ->)|[-> ->]]]].
    - eexists _, _. split; [done|]. destruct ce; [|apply Forall_nil_2].
      apply Forall_cons; split; [by left | apply Forall_nil_2].
    - destruct (own_index_lookup en k s Hnd Hin Hm) as [Hown Hne].
      rewrite (checkEntry_placeholders _ _ _ _ _ _ _ _ Hm Hown).
      assert (exists both,
                index !! k = Some (Tokens (uniq both)) /\
                forall el, el ∈ uniq (placeholderKeys s) -> el ∈ uniq both)
        as (both & Hidx & Hsub).
      { unfold index. rewrite (indexOnto_lookup _ _ _ _ (VString s)) by done.
        unfold entryOf. cbn [tokensOf].
        destruct (placeholderKeys s ++ tokensOf (getProp ex k))
          as [|x both] eqn:Hboth.
        { apply app_eq_nil in Hboth as [Hnil _].
          by rewrite Hnil in Hne. }
        exists (x :: both). split; [done|]. intros el Hel.
        rewrite <- Hboth. by apply uniq_app_l. }
      rewrite (readIndex_own _ _ _ Hidx), bool_decide_eq_true_2.
      + eexists _, _. split; [done|]. apply Forall_nil_2.
      + by apply Forall_forall.
    - unfold checkFormatOf. destruct (compilerFor fileName cm) as [c|].
      + eexists _, _. split; [done|].
        destruct (compile c s); [|apply Forall_nil_2].
        apply Forall_cons; split; [by right | apply Forall_nil_2].
      + eexists _, _. split; [done|]. apply Forall_nil_2.
    - eexists _, _. split; [done|]. apply Forall_nil_2. }
  destruct (pushEach_returns check en) as (t & fs & Hrun).
  { intros entry Hin. destruct (Hentry entry Hin) as (tx & fx & ? & _).
    by eauto. }
  exists ((if cm then [EvNewMessageFormat (fileLanguage fileName)] else [])
          ++ t), fs.
  split.
  - rewrite checkFileTranslations_eq. unfold makeCompiler.
    unfold check, compilerFor in Hrun.
    destruct cm; unfold bind, ret; by rewrite Hrun.
  - apply Forall_forall. intros f Hf.
    destruct (pushEach_origin _ _ _ _ _ Hrun Hf) as (x & tx & fx & Hx & Hc & Hfx).
    destruct (Hentry x Hx) as (tx' & fx' & Hc' & Hkinds).
    rewrite Hc in Hc'. injection Hc' as _ <-.
    rewrite Forall_forall in Hkinds. by apply Hkinds.
Qed.

Lemma switches_are_independent_witness :
  let es := [(str "a", VString []); (str "b", VString (str "{{x}}"));
             (str "c", VString (str "{x")); (str "d", VString (str "{{y}}"))] in
  let template := Some ({[ str "d" := Tokens [str "z"] ]} : PlaceholderIndex) in
  let file := str "messages-es.properties" in
  let fs := [emptyMessage (str "es") (str "a");
             missedPlaceholder (str "es") (str "b");
             wrongMessageformat (str "es") (str "c") (str "{x")
               {| errMessage := str "unbalanced braces" |};
             wrongPlaceholder (str "es") (str "d")] in
  outcome (@checkFileTranslations Demo.world es file template false true)
  = Return (filter (fun f => error f ≠ WrongMessageformat) fs) /\
  outcome (@checkFileTranslations Demo.world es file template true false)
  = Return (filter (fun f => error f ≠ EmptyMessage) fs) /\
  outcome (@checkFileTranslations Demo.world es file None true true)
  = Return (filter (fun f => error f ≠ MissedPlaceholder /\
                             error f ≠ WrongPlaceholder) fs).
Proof.
  intros es template file fs.
  apply (@switches_are_independent Demo.world es file template true true
           [EvNewMessageFormat (str "es"); EvCompile (str "es") (str "{x")]).
  by vm_compute.
Defined.

Lemma base_file_satisfies_its_template_witness :
  let en := Demo.contentOf (str "ok") EN_FILE in
  let ex := Demo.contentOf (str "ok") EX_FILE in
  exists t fs,
    @checkFileTranslations Demo.world en EN_FILE
      (Some (indexOnto ex ∅ en)) true true = (t, Return fs) /\
    Forall (fun f => error f = EmptyMessage \/ error f = WrongMessageformat)
      fs.
Proof.
  intros en ex.
  apply (@base_file_satisfies_its_template Demo.world en ex EN_FILE true true).
  - by_evaluation.
  - apply extractPlaceholdersFromTranslations_ret.
Defined.

Lemma validator_raises_on_scalar_template_witness :
  outcome (@checkFileTranslations Demo.world
             [(str "toString", VString (str "{{n}} items"))]
             (str "messages-es.properties") (Some ∅) true true)
  = Throw TypeError.
Proof.
  apply (proj2 (@validator_raises_on_scalar_template Demo.world
                  [(str "toString", VString (str "{{n}} items"))]
                  (str "messages-es.properties") (Some ∅) true true
                  ltac:(by_evaluation)))
    with (index := (∅ : PlaceholderIndex)) (msgKey := str "toString")
         (s := str "{{n}} items").
  - reflexivity.
  - left.
  - by vm_compute.
  - right. split; [apply lookup_empty | reflexivity].
Defined.
